(** * FSMLang tokenizer: a shallow embedding of [tokenizer.py]

    The development follows the layout of the source file: the token
    structures, the exceptions, the matcher classes and the line scanner.
    Python [str] values are modelled as [string]; every character is a code
    point below 256, so the whitespace and line-break tables below are the
    Latin-1 part of the Unicode tables CPython consults.  Python [int]
    values are modelled as [Z].  Objects that the source mutates or shares
    (list objects, matcher instances, tokenizer instances) live in a heap
    indexed by locations. *)

From Stdlib Require Import ZArith Lia Ascii String List Bool.
From stdpp Require Import base option list gmap strings.

Local Open Scope Z_scope.

(** ** Python string primitives *)

Module Str.

(** [len(s)] *)
Definition len (s : string) : Z := Z.of_nat (String.length s).

(** [Py_UNICODE_ISSPACE] on code points below 256: used by [str.strip],
    [str.isspace] and the regular-expression class [\s]. *)
Definition isspace_char (c : ascii) : bool :=
  match c with
  | "009" | "010" | "011" | "012" | "013"
  | "028" | "029" | "030" | "031" | " "
  | "133" | "160" => true
  | _ => false
  end%char.

(** Line boundaries recognised by [str.splitlines] (code points below 256). *)
Definition is_linebreak (c : ascii) : bool :=
  match c with
  | "010" | "011" | "012" | "013"
  | "028" | "029" | "030" | "133" => true
  | _ => false
  end%char.

(** [s.startswith(p)] *)
Definition startswith (s p : string) : bool := String.prefix p s.

(** [s[i:]] for a natural index. *)
Fixpoint drop (n : nat) (s : string) : string :=
  match n, s with
  | O, _ => s
  | S n', String _ s' => drop n' s'
  | S _, EmptyString => EmptyString
  end.

(** [s[i:]] with Python's treatment of negative and oversized indices. *)
Definition slice_from (s : string) (i : Z) : string :=
  if i <? 0 then drop (Z.to_nat (Z.max 0 (len s + i))) s
  else drop (Z.to_nat i) s.

(** [s.find(sub)]: index of the first occurrence, if any.  [sub in s] is
    [find] succeeding and [s.index(sub)] is its value. *)
Fixpoint find (sub s : string) : option nat :=
  if startswith s sub then Some O
  else match s with
       | EmptyString => None
       | String _ s' => S <$> find sub s'
       end.

Fixpoint lstrip (s : string) : string :=
  match s with
  | EmptyString => EmptyString
  | String c s' => if isspace_char c then lstrip s' else s
  end.

Fixpoint rstrip (s : string) : string :=
  match s with
  | EmptyString => EmptyString
  | String c s' =>
      match rstrip s' with
      | EmptyString => if isspace_char c then EmptyString else String c EmptyString
      | r => String c r
      end
  end.

(** [s.strip()] *)
Definition strip (s : string) : string := rstrip (lstrip s).

Fixpoint all_space (s : string) : bool :=
  match s with
  | EmptyString => true
  | String c s' => isspace_char c && all_space s'
  end.

(** [s.isspace()]: false on the empty string. *)
Definition isspace (s : string) : bool :=
  match s with
  | EmptyString => false
  | _ => all_space s
  end.

(** [s.split(sep)] for a one-character separator: every occurrence of the
    separator cuts, so adjacent separators give empty pieces. *)
Fixpoint split (sep : ascii) (s : string) : list string :=
  match s with
  | EmptyString => [EmptyString]
  | String c s' =>
      if Ascii.eqb c sep then EmptyString :: split sep s'
      else match split sep s' with
           | p :: ps => String c p :: ps
           | [] => [String c EmptyString]
           end
  end.

(** The pieces between line boundaries, the last one included even when it
    is empty.  A carriage return directly followed by a line feed is one
    boundary. *)
Fixpoint segments (s : string) : list string :=
  match s with
  | EmptyString => [EmptyString]
  | String c s' =>
      if is_linebreak c then
        if Ascii.eqb c "013" && startswith s' (String "010" EmptyString)
        then segments s'
        else EmptyString :: segments s'
      else match segments s' with
           | p :: ps => String c p :: ps
           | [] => [String c EmptyString]
           end
  end.

(** [s.splitlines()]: no empty line is reported after the final boundary. *)
Definition splitlines (s : string) : list string :=
  let segs := segments s in
  match last segs with
  | Some EmptyString => removelast segs
  | _ => segs
  end.

(** [re.compile(r"^\s*").match(s).end(0)]: the pattern always matches, and
    the match ends after the leading run of whitespace. *)
Fixpoint whitespace_end (s : string) : Z :=
  match s with
  | EmptyString => 0
  | String c s' => if isspace_char c then 1 + whitespace_end s' else 0
  end.

End Str.

(** ** Token structures *)

Record LineInfo := mkLineInfo {
  line_number : Z;
  line_start : Z;
  line_end : option Z
}.

Record FloatingToken := mkFloatingToken {
  token_id : string;
  value : option string
}.

Record Token := mkToken {
  Token_token : FloatingToken;
  Token_line_info : LineInfo
}.

(** ** Exceptions and outcomes *)

Inductive exn :=
  | BadTokenException (line_number line_position : Z) (line : string)
  | NoEndException (line_number line_position : Z)
  | ValueError (msg : string).

(** What a call does: it returns, it raises, it is still running when the
    iteration bound of the model is used up, or it touches a location that
    holds no object of the expected class (which Python's object model
    excludes). *)
Inductive outcome (A : Type) :=
  | Return (a : A)
  | Raise (e : exn)
  | OutOfFuel
  | Wrong.
Arguments Return {A} a.
Arguments Raise {A} e.
Arguments OutOfFuel {A}.
Arguments Wrong {A}.

(** ** Symbols and the symbol matcher *)

Record Symbol := mkSymbol {
  Symbol_symbol : string;
  Symbol_token : string
}.

Module SymbolMatcher.

Record t := mk { symbols : list Symbol }.

Definition DQUOTE : string := String "034" EmptyString.

(** The condition of the comprehension: [len(x) > 0 and not x.isspace()]. *)
Definition keeps (x : string) : bool :=
  (0 <? Str.len x) && negb (Str.isspace x).

(** [[x.strip() for x in line.strip().split(" ")
      if len(x) > 0 and not x.isspace()]] *)
Definition split_line (line : string) : list string :=
  Str.strip <$> List.filter keeps (Str.split " " (Str.strip line)).

(** [ValueError(f'Couldn\'t find valid split for line "{line}"')] *)
Definition complaint (line : string) : exn :=
  ValueError ("Couldn't find valid split for line " +:+ DQUOTE +:+ line +:+ DQUOTE).

(** The body of the [for line in symbols.splitlines()] loop of
    [__init__], threading [self.symbols]. *)
Fixpoint init_lines (lines : list string) (acc : list Symbol)
  : outcome (list Symbol) :=
  match lines with
  | [] => Return acc
  | line :: rest =>
      match split_line line with
      | [a; b] => init_lines rest (acc ++ [mkSymbol a b])
      | _ => Raise (complaint line)
      end
  end.

(** [SymbolMatcher.__init__(symbols)]; the default argument is [None],
    and [if symbols:] is false for [None] and for the empty string. *)
Definition init (symbols : option string) : outcome t :=
  match symbols with
  | None | Some EmptyString => Return (mk [])
  | Some spec =>
      match init_lines (Str.splitlines spec) [] with
      | Return l => Return (mk l)
      | Raise e => Raise e
      | OutOfFuel => OutOfFuel
      | Wrong => Wrong
      end
  end.

Definition add_symbol (self : t) (symbol token : string) : t :=
  mk (symbols self ++ [mkSymbol symbol token]).

Definition add_symbols (self : t) (l : list Symbol) : t :=
  mk (symbols self ++ l).

(** The [for symbol in self.symbols] loop of [match_token]. *)
Fixpoint match_symbols (l : list Symbol) (stream : string)
  : option FloatingToken * Z :=
  match l with
  | [] => (None, -1)
  | symbol :: rest =>
      if Str.startswith stream (Symbol_symbol symbol)
      then (Some (mkFloatingToken (Symbol_token symbol)
                                  (Some (Symbol_symbol symbol))),
            Str.len (Symbol_symbol symbol))
      else match_symbols rest stream
  end.

Definition match_token (self : t) (stream : string)
  : option FloatingToken * Z :=
  match_symbols (symbols self) stream.

End SymbolMatcher.

(** ** The comment matcher *)

Module CommentMatcher.

Record t := mk {
  is_multiline : bool;
  ml_start : Symbol;
  ml_end : Symbol;
  comment : Symbol
}.

Definition init (multiline_start multiline_end comment : Symbol) : t :=
  mk false multiline_start multiline_end comment.

Definition set_is_multiline (self : t) (b : bool) : t :=
  mk b (ml_start self) (ml_end self) (comment self).

(** [match_token] returns the object after the call together with the
    pair the method returns.  [self.ml_end.symbol in stream] followed by
    [stream.index(self.ml_end.symbol)] is one [Str.find]. *)
Definition match_token (self : t) (stream : string)
  : t * (option FloatingToken * Z) :=
  if is_multiline self then
    match Str.find (Symbol_symbol (ml_end self)) stream with
    | Some comment_end =>
        (set_is_multiline self false,
         (Some (mkFloatingToken (Symbol_token (ml_end self)) None),
          Z.of_nat comment_end + 2))
    | None =>
        (self,
         (Some (mkFloatingToken (Symbol_token (ml_end self)) None),
          Str.len stream))
    end
  else if Str.startswith stream (Symbol_symbol (comment self)) then
    (self,
     (Some (mkFloatingToken (Symbol_token (comment self)) None),
      Str.len stream))
  else if Str.startswith stream (Symbol_symbol (ml_start self)) then
    (set_is_multiline self true,
     (Some (mkFloatingToken (Symbol_token (ml_start self)) None),
      Str.len (Symbol_token (ml_start self))))
  else (self, (None, -1)).

(** [end_matching]: the reversed token list is searched for the first
    token of the start-marker kind. *)
Definition end_matching (self : t) (tokens : list Token) : outcome unit :=
  if is_multiline self then
    match List.find (fun token =>
                       String.eqb (token_id (Token_token token))
                                  (Symbol_token (ml_start self)))
                    (rev tokens) with
    | Some token =>
        Raise (NoEndException (line_number (Token_line_info token))
                              (line_start (Token_line_info token)))
    | None => Return tt
    end
  else Return tt.

End CommentMatcher.

(** ** Matcher objects *)

(** The two concrete subclasses of [TokenMatcher]; the base class itself is
    never instantiated by the source. *)
Inductive TokenMatcher :=
  | ASymbolMatcher (m : SymbolMatcher.t)
  | ACommentMatcher (m : CommentMatcher.t).

(** Method dispatch for [match_token]. *)
Definition TokenMatcher_match_token (m : TokenMatcher) (stream : string)
  : TokenMatcher * (option FloatingToken * Z) :=
  match m with
  | ASymbolMatcher sm => (m, SymbolMatcher.match_token sm stream)
  | ACommentMatcher cm =>
      let '(cm', r) := CommentMatcher.match_token cm stream in
      (ACommentMatcher cm', r)
  end.

(** Method dispatch for [end_matching]: [SymbolMatcher] inherits the base
    method, which returns [None]. *)
Definition TokenMatcher_end_matching (m : TokenMatcher) (tokens : list Token)
  : outcome unit :=
  match m with
  | ASymbolMatcher _ => Return tt
  | ACommentMatcher cm => CommentMatcher.end_matching cm tokens
  end.

(** ** The object heap *)

Definition loc := nat.

(** The objects the tokenizer classes create and share.  A
    [FloatingTokenizer] instance has no attribute of its own: the class
    defines no [__init__], and [matchers] is bound in the class body. *)
Inductive obj :=
  | OList (items : list loc)
  | OMatcher (m : TokenMatcher)
  | OFloatingTokenizer
  | OTokenizer (tokenizer : loc).

(** [class_matchers] is the binding of the class attribute
    [FloatingTokenizer.matchers]: the location of the list object that the
    class body created. *)
Record store := mkStore {
  heap : gmap loc obj;
  next_loc : loc;
  class_matchers : loc
}.

Definition set_heap (st : store) (h : gmap loc obj) : store :=
  mkStore h (next_loc st) (class_matchers st).

Definition alloc (st : store) (o : obj) : store * loc :=
  (mkStore (<[next_loc st := o]> (heap st)) (S (next_loc st)) (class_matchers st),
   next_loc st).

(** The store once the module has been executed: the class body of
    [FloatingTokenizer] has evaluated [[]] once. *)
Definition module_loaded : store :=
  mkStore {[ O := OList [] ]} 1%nat O.

(** ** The composite dispatcher *)

Module FloatingTokenizer.

(** [FloatingTokenizer()] *)
Definition new (st : store) : store * loc := alloc st OFloatingTokenizer.

(** Attribute lookup [self.matchers]: the instance dictionary has no such
    entry, so the class attribute is found. *)
Definition matchers (st : store) (self : loc) : option loc :=
  match heap st !! self with
  | Some OFloatingTokenizer => Some (class_matchers st)
  | _ => None
  end.

(** [self.matchers.append(matcher)] *)
Definition add_matcher (st : store) (self matcher : loc) : option store :=
  l ← matchers st self;
  match heap st !! l with
  | Some (OList items) =>
      Some (set_heap st (<[l := OList (items ++ [matcher])]> (heap st)))
  | _ => None
  end.

(** The [for i in self.matchers] loop of [match_token]; a matcher that is
    called may change its own state, which is written back. *)
Fixpoint try_matchers (h : gmap loc obj) (items : list loc) (stream : string)
  : option (gmap loc obj * (option FloatingToken * Z)) :=
  match items with
  | [] => Some (h, (None, -1))
  | i :: rest =>
      match h !! i with
      | Some (OMatcher m) =>
          let '(m', (match_, width)) := TokenMatcher_match_token m stream in
          let h' := <[i := OMatcher m']> h in
          match match_ with
          | Some _ => Some (h', (match_, width))
          | None => try_matchers h' rest stream
          end
      | _ => None
      end
  end.

Definition match_token (st : store) (self : loc) (stream : string)
  : option (store * (option FloatingToken * Z)) :=
  l ← matchers st self;
  match heap st !! l with
  | Some (OList items) =>
      '(h', r) ← try_matchers (heap st) items stream;
      Some (set_heap st h', r)
  | _ => None
  end.

End FloatingTokenizer.

(** ** The line scanner *)

Module Tokenizer.

(** [Tokenizer.__init__]; the compiled pattern is [Str.whitespace_end]. *)
Definition new (st : store) : store * loc :=
  let '(st1, ft) := FloatingTokenizer.new st in
  alloc st1 (OTokenizer ft).

(** Attribute lookup [self.tokenizer]. *)
Definition tokenizer (st : store) (self : loc) : option loc :=
  match heap st !! self with
  | Some (OTokenizer ft) => Some ft
  | _ => None
  end.

Definition add_matcher (st : store) (self matcher : loc) : option store :=
  ft ← tokenizer st self;
  FloatingTokenizer.add_matcher st ft matcher.

(** The matcher references a scan of [self] iterates over. *)
Definition registry (st : store) (self : loc) : option (list loc) :=
  ft ← tokenizer st self;
  l ← FloatingTokenizer.matchers st ft;
  match heap st !! l with
  | Some (OList items) => Some items
  | _ => None
  end.

(** What one iteration of the [while] body does at cursor [line_pos]. *)
Inductive iteration :=
  | Break
  | Raises (e : exn)
  | Continue (st : store) (line_pos : Z) (output : list Token)
  | Ill.

Definition loop_body (st : store) (self : loc) (line_number : Z)
    (line : string) (line_pos : Z) (output : list Token) : iteration :=
  let line_pos := line_pos + Str.whitespace_end (Str.slice_from line line_pos) in
  if line_pos =? Str.len line then Break
  else
    match ft ← tokenizer st self;
          FloatingTokenizer.match_token st ft (Str.slice_from line line_pos) with
    | None => Ill
    | Some (_, (None, _)) => Raises (BadTokenException line_number line_pos line)
    | Some (st', (Some token, width)) =>
        let line_info := mkLineInfo line_number line_pos (Some (line_pos + width)) in
        Continue st' (line_pos + width) (output ++ [mkToken token line_info])
    end.

(** [while line_pos < len(line)], bounded by [fuel] iterations. *)
Fixpoint while_loop (fuel : nat) (st : store) (self : loc) (line_number : Z)
    (line : string) (line_pos : Z) (output : list Token)
  : outcome (store * list Token) :=
  match fuel with
  | O => OutOfFuel
  | S fuel' =>
      if line_pos <? Str.len line then
        match loop_body st self line_number line line_pos output with
        | Break => Return (st, output)
        | Raises e => Raise e
        | Continue st' line_pos' output' =>
            while_loop fuel' st' self line_number line line_pos' output'
        | Ill => Wrong
        end
      else Return (st, output)
  end.

(** [for line_number, line in enumerate(lines)] *)
Fixpoint for_lines (fuel : nat) (st : store) (self : loc) (line_number : Z)
    (lines : list string) (output : list Token)
  : outcome (store * list Token) :=
  match lines with
  | [] => Return (st, output)
  | line :: rest =>
      match while_loop fuel st self line_number line 0 output with
      | Return (st', output') =>
          for_lines fuel st' self (line_number + 1) rest output'
      | r => r
      end
  end.

(** [Tokenizer.match_tokens]: the returned list, paired with the store the
    call leaves behind.  [fuel] bounds the iterations spent on one line. *)
Definition match_tokens (fuel : nat) (st : store) (self : loc) (stream : string)
  : outcome (store * list Token) :=
  for_lines fuel st self 0 (Str.splitlines stream) [].

End Tokenizer.

(** ** Predicates used in the statements *)

(** [p] is a prefix of [s]. *)
Definition is_prefix (p s : string) : Prop := exists t, s = p +:+ t.

(** No character of [s] is whitespace, and [s] is not empty: a field of a
    bulk specification line. *)
Fixpoint no_space (s : string) : bool :=
  match s with
  | EmptyString => true
  | String c s' => negb (Str.isspace_char c) && no_space s'
  end.

Definition is_field (s : string) : Prop := s <> EmptyString /\ no_space s = true.

Fixpoint has_blank (s : string) : bool :=
  match s with
  | EmptyString => false
  | String c s' => Ascii.eqb c " " || has_blank s'
  end.

(** [joined fs body]: [body] is the fields [fs] in order, two neighbours
    separated by a run of whitespace in which a space character occurs. *)
Inductive joined : list string -> string -> Prop :=
  | joined_nil : joined [] EmptyString
  | joined_one a : is_field a -> joined [a] a
  | joined_cons a ws b fs rest :
      is_field a -> Str.all_space ws = true -> has_blank ws = true ->
      joined (b :: fs) rest ->
      joined (a :: b :: fs) (a +:+ ws +:+ rest).

(** [line] holds the fields [fs], with whitespace allowed before the first
    and after the last. *)
Definition line_of_fields (fs : list string) (line : string) : Prop :=
  exists ws1 body ws3,
    line = ws1 +:+ body +:+ ws3 /\ joined fs body /\
    Str.all_space ws1 = true /\ Str.all_space ws3 = true.

(** [line] holds the literal and the kind of [sym], and nothing else. *)
Definition line_of_pair (sym : Symbol) (line : string) : Prop :=
  line_of_fields [Symbol_symbol sym; Symbol_token sym] line.

(** The matcher object at [i] answers "no match" on [stream]. *)
Definition declines (h : gmap loc obj) (stream : string) (i : loc) : Prop :=
  exists m, h !! i = Some (OMatcher m) /\
            fst (snd (TokenMatcher_match_token m stream)) = None.

(** No matcher registered with tokenizer [self] matches [stream]. *)
Definition no_matcher_matches (st : store) (self : loc) (stream : string) : Prop :=
  exists items, Tokenizer.registry st self = Some items /\
                Forall (declines (heap st) stream) items.

(** The [while] loop on [line] is over at cursor [line_pos]: its condition
    is false or its body breaks. *)
Definition line_done (st : store) (self : loc) (line_number : Z) (line : string)
    (line_pos : Z) (output : list Token) : Prop :=
  (line_pos <? Str.len line) = false \/
  Tokenizer.loop_body st self line_number line line_pos output = Tokenizer.Break.

(** [visits st0 self lines n line st pos out]: a scan of [lines] started in
    store [st0] arrives at the test of the [while] loop on line [n] with
    store [st], cursor [pos] and output [out]. *)
Inductive visits (st0 : store) (self : loc) (lines : list string)
  : nat -> string -> store -> Z -> list Token -> Prop :=
  | visits_first line :
      lines !! O = Some line ->
      visits st0 self lines O line st0 0 []
  | visits_token n line st pos out st' pos' out' :
      visits st0 self lines n line st pos out ->
      (pos <? Str.len line) = true ->
      Tokenizer.loop_body st self (Z.of_nat n) line pos out
        = Tokenizer.Continue st' pos' out' ->
      visits st0 self lines n line st' pos' out'
  | visits_next_line n line st pos out line' :
      visits st0 self lines n line st pos out ->
      line_done st self (Z.of_nat n) line pos out ->
      lines !! S n = Some line' ->
      visits st0 self lines (S n) line' st 0 out.

(** The scan visits a cursor on line [n] whose position after whitespace
    stripping is [pos], and a matcher registered with [self], called there
    on [line[pos:]], returned [(unit, width)]. *)
Definition matched_at (st0 : store) (self : loc) (lines : list string)
    (n : nat) (pos : Z) (unit : FloatingToken) (width : Z) : Prop :=
  exists line st pos0 out items i m m',
    visits st0 self lines n line st pos0 out /\
    (pos0 <? Str.len line) = true /\
    pos = pos0 + Str.whitespace_end (Str.slice_from line pos0) /\
    Tokenizer.registry st self = Some items /\ i ∈ items /\
    heap st !! i = Some (OMatcher m) /\
    TokenMatcher_match_token m (Str.slice_from line pos) = (m', (Some unit, width)).

(** [tok] carries the line, the stripped cursor and the width of the match
    that produced it. *)
Definition positioned (st0 : store) (self : loc) (lines : list string)
    (tok : Token) : Prop :=
  exists n pos width,
    matched_at st0 self lines n pos (Token_token tok) width /\
    Token_line_info tok = mkLineInfo (Z.of_nat n) pos (Some (pos + width)).

(** The rest of a scan from the test of the [while] loop on line [n]:
    the loop on that line, then the lines [rest] after it. *)
Definition resume (fuel : nat) (st : store) (self : loc) (n : nat) (line : string)
    (pos : Z) (out : list Token) (rest : list string)
  : outcome (store * list Token) :=
  match Tokenizer.while_loop fuel st self (Z.of_nat n) line pos out with
  | Return (st', out') => Tokenizer.for_lines fuel st' self (Z.of_nat n + 1) rest out'
  | r => r
  end.

(** ** The configuration of the source's demonstration *)

Definition TAB : string := String "009" EmptyString.
Definition NL : string := String "010" EmptyString.

Definition comm_match : CommentMatcher.t :=
  CommentMatcher.init (mkSymbol "/*" "MULTILINE_START")
                      (mkSymbol "*/" "MULTILINE_END")
                      (mkSymbol "//" "SINGLE_COMMENT").

Definition semicolon_match : SymbolMatcher.t :=
  SymbolMatcher.mk [mkSymbol ";" "SYMB_SEMICOLON"].

(** A comment matcher for markers of other lengths. *)
Definition html_match : CommentMatcher.t :=
  CommentMatcher.init (mkSymbol "<!--" "HTML_START")
                      (mkSymbol "-->" "HTML_END")
                      (mkSymbol "//" "SINGLE_COMMENT").

(** A tokenizer with the given matchers registered in order, built by the
    calls the demonstration makes: the matchers are constructed first, then
    [Tokenizer()], then one [add_matcher] per matcher. *)
Fixpoint alloc_matchers (st : store) (ms : list TokenMatcher) : store * list loc :=
  match ms with
  | [] => (st, [])
  | m :: rest =>
      let '(st1, i) := alloc st (OMatcher m) in
      let '(st2, refs) := alloc_matchers st1 rest in
      (st2, i :: refs)
  end.

Fixpoint add_matchers (st : store) (tk : loc) (refs : list loc) : option store :=
  match refs with
  | [] => Some st
  | i :: rest => st' ← Tokenizer.add_matcher st tk i; add_matchers st' tk rest
  end.

Definition setup (ms : list TokenMatcher) : option (store * loc) :=
  let '(st1, refs) := alloc_matchers module_loaded ms in
  let '(st2, tk) := Tokenizer.new st1 in
  st3 ← add_matchers st2 tk refs;
  Some (st3, tk).

Definition demo_setup : option (store * loc) :=
  setup [ACommentMatcher comm_match; ASymbolMatcher semicolon_match].

Definition demo_store : store :=
  match demo_setup with Some (st, _) => st | None => module_loaded end.

Definition demo_tokenizer : loc :=
  match demo_setup with Some (_, tk) => tk | None => O end.

(** The list a scan returns, the store dropped. *)
Definition scan_tokens (fuel : nat) (s : option (store * loc)) (stream : string)
  : outcome (list Token) :=
  match s with
  | Some (st, tk) =>
      match Tokenizer.match_tokens fuel st tk stream with
      | Return (_, output) => Return output
      | Raise e => Raise e
      | OutOfFuel => OutOfFuel
      | Wrong => Wrong
      end
  | None => Wrong
  end.

(** ** Predicates used in the further properties *)

(** Every match of [m] on a non-empty stream has a positive width: no
    symbol literal is empty, and the kind of a start marker is not empty. *)
Definition progressive (m : TokenMatcher) : Prop :=
  match m with
  | ASymbolMatcher sm =>
      Forall (fun s => Symbol_symbol s <> EmptyString) (SymbolMatcher.symbols sm)
  | ACommentMatcher cm =>
      Symbol_token (CommentMatcher.ml_start cm) <> EmptyString
  end.


(** [t1] lies before [t2] in the source text: on an earlier line, or on the
    same line and ending no later than [t2] starts. *)
Definition precedes (t1 t2 : Token) : Prop :=
  line_number (Token_line_info t1) < line_number (Token_line_info t2) \/
  (line_number (Token_line_info t1) = line_number (Token_line_info t2) /\
   exists e, line_end (Token_line_info t1) = Some e /\
             e <= line_start (Token_line_info t2)).

(** [tok] starts on a character of a line of [lines] that is not
    whitespace. *)
Definition starts_on_text (lines : list string) (tok : Token) : Prop :=
  exists n line c rest,
    line_number (Token_line_info tok) = Z.of_nat n /\
    lines !! n = Some line /\
    0 <= line_start (Token_line_info tok) < Str.len line /\
    Str.slice_from line (line_start (Token_line_info tok)) = String c rest /\
    Str.isspace_char c = false.

(** [o'] is [o], up to the inside flag when [o] is a comment matcher. *)
Definition same_object (o o' : obj) : Prop :=
  match o with
  | OMatcher (ACommentMatcher cm) =>
      exists b, o' = OMatcher (ACommentMatcher (CommentMatcher.set_is_multiline cm b))
  | _ => o' = o
  end.

(** [st'] holds the objects of [st] at the same locations, up to the inside
    flags of comment matchers. *)
Definition same_configuration (st st' : store) : Prop :=
  next_loc st' = next_loc st /\ class_matchers st' = class_matchers st /\
  forall l,
    match heap st !! l with
    | Some o => exists o', heap st' !! l = Some o' /\ same_object o o'
    | None => heap st' !! l = None
    end.

(** The text of a bulk specification for [syms]: one line per symbol, the
    literal, one space, the kind; the lines joined by line feeds. *)
Definition spec_line (sym : Symbol) : string :=
  Symbol_symbol sym +:+ " " +:+ Symbol_token sym.

Fixpoint spec_text (syms : list Symbol) : string :=
  match syms with
  | [] => EmptyString
  | [sym] => spec_line sym
  | sym :: rest => spec_line sym +:+ NL +:+ spec_text rest
  end.

(** No character of [s] is a line boundary. *)
Fixpoint no_linebreak (s : string) : bool :=
  match s with
  | EmptyString => true
  | String c s' => negb (Str.is_linebreak c) && no_linebreak s'
  end.

(** ** Facts about the string primitives *)

Section string_facts.

Implicit Types (s t p : string) (c : ascii).

Lemma app_cons c s t : String c s +:+ t = String c (s +:+ t).
Proof. reflexivity. Qed.

Lemma app_empty_l s : EmptyString +:+ s = s.
Proof. reflexivity. Qed.

Lemma app_empty_r s : s +:+ EmptyString = s.
Proof. induction s as [|c s IH]; [done|]. by rewrite app_cons, IH. Qed.

Lemma app_assoc_str s t p : (s +:+ t) +:+ p = s +:+ t +:+ p.
Proof. induction s as [|c s IH]; [done|]. by rewrite !app_cons, IH. Qed.

Lemma len_nonneg s : 0 <= Str.len s.
Proof. unfold Str.len. lia. Qed.

Lemma len_app s t : Str.len (s +:+ t) = Str.len s + Str.len t.
Proof.
  unfold Str.len. induction s as [|c s IH]; [done|].
  rewrite app_cons. cbn [String.length]. lia.
Qed.

Lemma startswith_spec s p : Str.startswith s p = true <-> is_prefix p s.
Proof.
  unfold Str.startswith, is_prefix. revert s.
  induction p as [|c p IH]; intros s.
  - destruct s; cbn; split; eauto.
  - destruct s as [|d s]; cbn.
    + split; [done|]. intros [t Ht]. discriminate Ht.
    + destruct (ascii_dec c d) as [->|Hne].
      * rewrite IH. split; intros [t Ht]; exists t.
        -- by rewrite app_cons, <- Ht.
        -- rewrite app_cons in Ht. congruence.
      * split; [done|]. intros [t Ht]. rewrite app_cons in Ht. congruence.
Qed.

Lemma startswith_false s p : Str.startswith s p = false <-> ~ is_prefix p s.
Proof.
  rewrite <- startswith_spec. by destruct (Str.startswith s p).
Qed.

(** [Str.find] returns the index of the first occurrence. *)
Lemma find_Some sub s i :
  Str.find sub s = Some i ->
  (i <= String.length s)%nat /\ is_prefix sub (Str.drop i s) /\
  forall j, (j < i)%nat -> ~ is_prefix sub (Str.drop j s).
Proof.
  revert i. induction s as [|c s IH]; intros i; cbn [Str.find].
  - destruct (Str.startswith EmptyString sub) eqn:E; [|done].
    intros [= <-]. split; [done|]. split; [by apply startswith_spec|]. lia.
  - destruct (Str.startswith (String c s) sub) eqn:E.
    + intros [= <-]. split; [lia|]. split; [by apply startswith_spec|]. lia.
    + destruct (Str.find sub s) as [k|] eqn:Ek; [|done].
      cbn. intros [= <-]. destruct (IH k eq_refl) as (Hk & Hp & Hmin).
      split; [cbn; lia|]. split; [done|].
      intros [|j] Hj; cbn [Str.drop].
      * by apply startswith_false.
      * apply Hmin. lia.
Qed.

Lemma find_None sub s :
  Str.find sub s = None ->
  forall j, (j <= String.length s)%nat -> ~ is_prefix sub (Str.drop j s).
Proof.
  induction s as [|c s IH]; cbn [Str.find].
  - destruct (Str.startswith EmptyString sub) eqn:E; [done|]. intros _ j Hj.
    cbn in Hj. assert (j = O) as -> by lia. by apply startswith_false.
  - destruct (Str.startswith (String c s) sub) eqn:E; [done|].
    destruct (Str.find sub s) eqn:Ek; [done|]. intros _ [|j] Hj; cbn [Str.drop].
    + by apply startswith_false.
    + apply IH; [done|]. cbn in Hj. lia.
Qed.

End string_facts.

(** ** The symbol matcher tries its symbols in list order *)

Section symbol_matcher_facts.

Implicit Types (l : list Symbol) (stream : string).

Lemma match_symbols_first l stream :
  match SymbolMatcher.match_symbols l stream with
  | (Some unit, width) =>
      exists pre sym post,
        l = pre ++ sym :: post /\
        Forall (fun s => ~ is_prefix (Symbol_symbol s) stream) pre /\
        is_prefix (Symbol_symbol sym) stream /\
        unit = mkFloatingToken (Symbol_token sym) (Some (Symbol_symbol sym)) /\
        width = Str.len (Symbol_symbol sym)
  | (None, width) =>
      width = -1 /\
      Forall (fun s => ~ is_prefix (Symbol_symbol s) stream) l
  end.
Proof.
  induction l as [|sym l IH]; cbn [SymbolMatcher.match_symbols].
  - by split.
  - destruct (Str.startswith stream (Symbol_symbol sym)) eqn:E.
    + exists [], sym, l. apply startswith_spec in E. by repeat split.
    + apply startswith_false in E.
      destruct (SymbolMatcher.match_symbols l stream) as [[unit|] width].
      * destruct IH as (pre & s & post & -> & Hpre & Hs & Hu & Hw).
        exists (sym :: pre), s, post. repeat split; try done.
        by constructor.
      * destruct IH as [-> Hall]. split; [done|]. by constructor.
Qed.

End symbol_matcher_facts.

(** ** The comment matcher *)

Section comment_matcher_facts.

Import CommentMatcher.
Implicit Types (self : CommentMatcher.t) (stream : string).

(** Inside a multi-line comment the width is computed from the constant
    [2], whatever the end marker is. *)
Lemma match_token_inside self stream :
  is_multiline self = true ->
  match_token self stream =
    match Str.find (Symbol_symbol (ml_end self)) stream with
    | Some i => (set_is_multiline self false,
                 (Some (mkFloatingToken (Symbol_token (ml_end self)) None),
                  Z.of_nat i + 2))
    | None => (self,
               (Some (mkFloatingToken (Symbol_token (ml_end self)) None),
                Str.len stream))
    end.
Proof. intros H. unfold match_token. by rewrite H. Qed.

(** The same in terms of occurrences: the index used is that of the first
    occurrence of the end marker, and the other branch is taken when the
    marker occurs nowhere in the stream. *)
Lemma match_token_inside_occurrence self stream :
  is_multiline self = true ->
  (exists i : nat,
     is_prefix (Symbol_symbol (ml_end self)) (Str.drop i stream) /\
     (forall j, (j < i)%nat ->
        ~ is_prefix (Symbol_symbol (ml_end self)) (Str.drop j stream)) /\
     match_token self stream =
       (set_is_multiline self false,
        (Some (mkFloatingToken (Symbol_token (ml_end self)) None),
         Z.of_nat i + 2))) \/
  ((forall j, (j <= String.length stream)%nat ->
      ~ is_prefix (Symbol_symbol (ml_end self)) (Str.drop j stream)) /\
   match_token self stream =
     (self,
      (Some (mkFloatingToken (Symbol_token (ml_end self)) None),
       Str.len stream))).
Proof.
  intros H. rewrite (match_token_inside _ _ H).
  destruct (Str.find (Symbol_symbol (ml_end self)) stream) as [i|] eqn:E.
  - left. exists i. apply find_Some in E as (_ & Hp & Hmin). by repeat split.
  - right. split; [|done]. by apply find_None.
Qed.

(** With an end marker of two characters the constant is the marker's
    length. *)
Lemma match_token_inside_two self stream i :
  is_multiline self = true ->
  Str.len (Symbol_symbol (ml_end self)) = 2 ->
  Str.find (Symbol_symbol (ml_end self)) stream = Some i ->
  match_token self stream =
    (set_is_multiline self false,
     (Some (mkFloatingToken (Symbol_token (ml_end self)) None),
      Z.of_nat i + Str.len (Symbol_symbol (ml_end self)))).
Proof. intros H H2 Hf. rewrite match_token_inside, Hf, H2; done. Qed.

(** On a start marker the width is the length of the marker's kind. *)
Lemma match_token_start self stream :
  is_multiline self = false ->
  Str.startswith stream (Symbol_symbol (comment self)) = false ->
  Str.startswith stream (Symbol_symbol (ml_start self)) = true ->
  match_token self stream =
    (set_is_multiline self true,
     (Some (mkFloatingToken (Symbol_token (ml_start self)) None),
      Str.len (Symbol_token (ml_start self)))).
Proof. intros H1 H2 H3. unfold match_token. by rewrite H1, H2, H3. Qed.

(** A call that answers "no match" leaves the matcher as it was. *)
Lemma match_token_None_same self stream :
  fst (snd (match_token self stream)) = None ->
  fst (match_token self stream) = self.
Proof.
  unfold match_token.
  destruct (is_multiline self);
    [destruct (Str.find _ _); done|].
  destruct (Str.startswith stream (Symbol_symbol (comment self))); [done|].
  by destruct (Str.startswith stream (Symbol_symbol (ml_start self))).
Qed.

Lemma elem_of_rev (tok : Token) (l : list Token) : tok ∈ rev l <-> tok ∈ l.
Proof. rewrite !list_elem_of_In. symmetry. apply in_rev. Qed.

Lemma find_kind_Some (kind : string) (l : list Token) tok :
  List.find (fun t => String.eqb (token_id (Token_token t)) kind) l = Some tok ->
  tok ∈ l /\ token_id (Token_token tok) = kind.
Proof.
  intros H. apply find_some in H as [Hin Heq].
  split; [by apply list_elem_of_In|]. by apply String.eqb_eq.
Qed.

Lemma find_kind_None (kind : string) (l : list Token) :
  List.find (fun t => String.eqb (token_id (Token_token t)) kind) l = None <->
  forall tok, tok ∈ l -> token_id (Token_token tok) <> kind.
Proof.
  split.
  - intros H tok Hin. apply list_elem_of_In in Hin.
    apply (find_none _ _ H) in Hin. by apply String.eqb_neq.
  - intros H. destruct (List.find _ l) as [tok|] eqn:E; [|done].
    apply find_kind_Some in E as [Hin Hk]. by destruct (H tok Hin).
Qed.

End comment_matcher_facts.

(** C3: on the multi-line start marker the matcher sets the inside flag and
    returns the start-marker kind, but the width it returns is the length of
    the kind's name (15 for "MULTILINE_START"), not the length of the
    start-marker literal (2 for "/*"). *)
Theorem C3_start_width_is_length_of_kind :
  CommentMatcher.is_multiline comm_match = false /\
  Str.startswith "/* x" (Symbol_symbol (CommentMatcher.comment comm_match)) = false /\
  Str.startswith "/* x" (Symbol_symbol (CommentMatcher.ml_start comm_match)) = true /\
  CommentMatcher.match_token comm_match "/* x" =
    (CommentMatcher.set_is_multiline comm_match true,
     (Some (mkFloatingToken "MULTILINE_START" None), 15)) /\
  Str.len (Symbol_symbol (CommentMatcher.ml_start comm_match)) = 2.
Proof. by vm_compute. Qed.

(** C5: inside a multi-line comment whose end marker "-->" has three
    characters, the remaining line "x-->y" holds the marker at index 1; the
    matcher clears the flag and returns the end kind with width 1 + 2 = 3,
    not 1 + 3 = 4. *)
Theorem C5_end_width_adds_two :
  let inside := CommentMatcher.set_is_multiline html_match true in
  Str.find (Symbol_symbol (CommentMatcher.ml_end inside)) "x-->y" = Some 1%nat /\
  Str.len (Symbol_symbol (CommentMatcher.ml_end inside)) = 3 /\
  CommentMatcher.match_token inside "x-->y" =
    (html_match, (Some (mkFloatingToken "HTML_END" None), 3)).
Proof. by vm_compute. Qed.

(** C10: [end_matching] raises only when the inside flag is set and the
    token sequence holds a token of the start-marker kind (it then reports
    that token's line and start offset); with the flag set and no such token
    in the sequence it returns normally. *)
Theorem C10_end_matching_needs_start_token
    (self : CommentMatcher.t) (tokens : list Token) :
  (forall e, CommentMatcher.end_matching self tokens = Raise e ->
     CommentMatcher.is_multiline self = true /\
     exists tok, tok ∈ tokens /\
       token_id (Token_token tok) = Symbol_token (CommentMatcher.ml_start self) /\
       e = NoEndException (line_number (Token_line_info tok))
                          (line_start (Token_line_info tok))) /\
  (CommentMatcher.is_multiline self = true ->
   (forall tok, tok ∈ tokens ->
      token_id (Token_token tok) <> Symbol_token (CommentMatcher.ml_start self)) ->
   CommentMatcher.end_matching self tokens = Return tt).
Proof.
  unfold CommentMatcher.end_matching. split.
  - intros e. destruct (CommentMatcher.is_multiline self); [|done].
    destruct (List.find _ _) as [tok|] eqn:E; [|done].
    intros [= <-]. split; [done|]. apply find_kind_Some in E as [Hin Hk].
    exists tok. split; [|done]. by apply elem_of_rev.
  - intros -> Hno.
    assert (List.find
              (fun token => String.eqb (token_id (Token_token token))
                 (Symbol_token (CommentMatcher.ml_start self)))
              (rev tokens) = None) as ->; [|done].
    apply find_kind_None. intros tok Hin. apply Hno. by apply elem_of_rev.
Qed.

(** The flag is set and the only token is a semicolon: no failure. *)
Lemma C10_end_matching_witness :
  CommentMatcher.end_matching
    (CommentMatcher.set_is_multiline comm_match true)
    [mkToken (mkFloatingToken "SYMB_SEMICOLON" (Some ";")) (mkLineInfo 0 0 (Some 1))]
  = Return tt.
Proof.
  apply (proj2 (C10_end_matching_needs_start_token _ _)).
  - reflexivity.
  - intros tok Hin. apply list_elem_of_singleton in Hin. subst tok.
    vm_compute. discriminate.
Defined.

(** ** The composite dispatcher *)

Section dispatcher_facts.

Implicit Types (h : gmap loc obj) (items : list loc) (stream : string).

Lemma TokenMatcher_None_same m stream :
  fst (snd (TokenMatcher_match_token m stream)) = None ->
  fst (TokenMatcher_match_token m stream) = m.
Proof.
  destruct m as [sm|cm]; cbn; [done|].
  pose proof (match_token_None_same cm stream) as H.
  destruct (CommentMatcher.match_token cm stream) as [cm' r]; cbn in *.
  intros Hr. by rewrite H.
Qed.

(** The dispatcher returns the answer of the first registered matcher that
    matches, and "no match" only when every matcher declines. *)
Lemma try_matchers_spec h items stream h' r :
  FloatingTokenizer.try_matchers h items stream = Some (h', r) ->
  match r with
  | (Some unit, width) =>
      exists pre i post m m',
        items = pre ++ i :: post /\
        Forall (declines h stream) pre /\
        h !! i = Some (OMatcher m) /\
        TokenMatcher_match_token m stream = (m', (Some unit, width)) /\
        h' = <[i := OMatcher m']> h
  | (None, width) =>
      width = -1 /\ h' = h /\ Forall (declines h stream) items
  end.
Proof.
  revert h'. induction items as [|i items IH]; intros h';
    cbn [FloatingTokenizer.try_matchers].
  - intros [= <- <-]. by repeat split.
  - destruct (h !! i) as [[| m | |]|] eqn:Hi; try done.
    destruct (TokenMatcher_match_token m stream) as [m' [[unit|] width]] eqn:Hm.
    + intros [= <- <-]. exists [], i, items, m, m'. by repeat split.
    + assert (m' = m) as ->.
      { pose proof (TokenMatcher_None_same m stream) as H.
        rewrite Hm in H. exact (H eq_refl). }
      rewrite insert_id by done. intros Hrest.
      assert (declines h stream i) as Hd.
      { exists m. by rewrite Hm. }
      specialize (IH _ Hrest). destruct r as [[unit|] w].
      * destruct IH as (pre & j & post & mj & mj' & -> & Hpre & Hj & Hmj & ->).
        exists (i :: pre), j, post, mj, mj'. repeat split; try done.
        by constructor.
      * destruct IH as (-> & -> & Hall). repeat split; try done.
        by constructor.
Qed.

Lemma try_matchers_declined h items stream :
  Forall (declines h stream) items ->
  FloatingTokenizer.try_matchers h items stream = Some (h, (None, -1)).
Proof.
  induction 1 as [|i items (m & Hi & Hm) _ IH];
    cbn [FloatingTokenizer.try_matchers]; [done|].
  rewrite Hi. pose proof (TokenMatcher_None_same m stream Hm) as Hsame.
  destruct (TokenMatcher_match_token m stream) as [m' [mt w]]; cbn in *.
  subst. by rewrite insert_id.
Qed.

Lemma set_heap_same st : set_heap st (heap st) = st.
Proof. by destruct st. Qed.

(** Every instance resolves [matchers] to the list of the class, so an
    [add_matcher] through one tokenizer shows in the registry of any
    other. *)
Lemma add_matcher_shared st a b matcher st' items :
  Tokenizer.add_matcher st a matcher = Some st' ->
  Tokenizer.registry st b = Some items ->
  Tokenizer.registry st' b = Some (items ++ [matcher]).
Proof.
  unfold Tokenizer.add_matcher, Tokenizer.registry, Tokenizer.tokenizer,
    FloatingTokenizer.add_matcher, FloatingTokenizer.matchers.
  destruct st as [h nx cls]; cbn.
  destruct (h !! a) as [[| | |fa]|] eqn:Ha; try done; cbn.
  destruct (h !! fa) as [[| | |]|] eqn:Hfa; try done; cbn.
  destruct (h !! cls) as [[l| | |]|] eqn:Hcls; try done.
  intros [= <-]; cbn.
  destruct (h !! b) as [[| | |fb]|] eqn:Hb; try done; cbn.
  destruct (h !! fb) as [[| | |]|] eqn:Hfb; try done; cbn.
  rewrite Hcls. intros [= <-].
  rewrite lookup_insert_ne by congruence. rewrite Hb; cbn.
  rewrite lookup_insert_ne by congruence. rewrite Hfb; cbn.
  by rewrite lookup_insert_eq.
Qed.

End dispatcher_facts.

(** C2: two tokenizers are created, both registries are empty, and a
    matcher is added to the first only; the registry of the second then
    holds that matcher too, and a tokenizer created afterwards starts with
    it, because [matchers] is one list bound in the class body of
    [FloatingTokenizer]. *)
Theorem C2_registry_is_shared :
  let '(st0, m) := alloc module_loaded (OMatcher (ASymbolMatcher semicolon_match)) in
  let '(st1, a) := Tokenizer.new st0 in
  let '(st2, b) := Tokenizer.new st1 in
  a <> b /\
  Tokenizer.registry st2 a = Some [] /\
  Tokenizer.registry st2 b = Some [] /\
  exists st3, Tokenizer.add_matcher st2 a m = Some st3 /\
              Tokenizer.registry st3 b = Some [m] /\
              let '(st4, c) := Tokenizer.new st3 in
              Tokenizer.registry st4 c = Some [m].
Proof.
  cbn. split; [done|]. split; [done|]. split; [done|].
  eexists. split; [reflexivity|]. by vm_compute.
Qed.

(** ** The line scanner *)

Section scanner_facts.

Import Tokenizer.
Implicit Types (st : store) (self : loc) (line : string) (out : list Token).

Lemma match_token_registry st ft stream st' r items :
  FloatingTokenizer.matchers st ft = Some (class_matchers st) ->
  heap st !! class_matchers st = Some (OList items) ->
  FloatingTokenizer.match_token st ft stream = Some (st', r) ->
  exists h', FloatingTokenizer.try_matchers (heap st) items stream = Some (h', r) /\
             st' = set_heap st h'.
Proof.
  unfold FloatingTokenizer.match_token. intros -> Hl; cbn. rewrite Hl.
  destruct (FloatingTokenizer.try_matchers _ _ _) as [[h' r']|]; [|done].
  cbn. intros [= <- <-]. by exists h'.
Qed.

(** What the body did when the loop goes on: a registered matcher
    matched at the stripped cursor, and the token carries that cursor and
    the returned width. *)
Lemma loop_body_Continue st self ln line pos out st' pos' out' :
  loop_body st self ln line pos out = Continue st' pos' out' ->
  let pos1 := pos + Str.whitespace_end (Str.slice_from line pos) in
  exists items i m m' unit width,
    registry st self = Some items /\ i ∈ items /\
    heap st !! i = Some (OMatcher m) /\
    TokenMatcher_match_token m (Str.slice_from line pos1)
      = (m', (Some unit, width)) /\
    st' = set_heap st (<[i := OMatcher m']> (heap st)) /\
    pos' = pos1 + width /\
    out' = out ++ [mkToken unit (mkLineInfo ln pos1 (Some (pos1 + width)))].
Proof.
  unfold loop_body, registry. cbn zeta.
  set (pos1 := pos + Str.whitespace_end (Str.slice_from line pos)).
  destruct (pos1 =? Str.len line); [done|].
  destruct (tokenizer st self) as [ft|]; [|done]. cbn.
  destruct (FloatingTokenizer.match_token st ft _) as [[st1 [[unit|] width]]|] eqn:E;
    try done.
  intros [= <- <- <-].
  unfold FloatingTokenizer.match_token in E.
  destruct (FloatingTokenizer.matchers st ft) as [l|]; [|done]. cbn in E |- *.
  destruct (heap st !! l) as [[items| | |]|]; try done.
  destruct (FloatingTokenizer.try_matchers _ _ _) as [[h' r']|] eqn:Et; [|done].
  cbn in E. injection E as <- ->.
  apply try_matchers_spec in Et
    as (pre & i & post & m & m' & -> & _ & Hi & Hm & ->).
  exists (pre ++ i :: post), i, m, m', unit, width.
  repeat split; try done. apply elem_of_app. right. by left.
Qed.

(** The body raises exactly the unmatched-input failure. *)
Lemma loop_body_Raises st self ln line pos out e :
  loop_body st self ln line pos out = Raises e ->
  e = BadTokenException ln (pos + Str.whitespace_end (Str.slice_from line pos)) line.
Proof.
  unfold loop_body. cbn zeta.
  destruct (_ =? Str.len line); [done|].
  destruct (_ ≫= _) as [[st1 [[unit|] width]]|]; try done.
  by intros [= <-].
Qed.

Lemma no_matcher_matches_match_token st self stream :
  no_matcher_matches st self stream ->
  (ft ← tokenizer st self; FloatingTokenizer.match_token st ft stream)
    = Some (st, (None, -1)).
Proof.
  intros (items & Hreg & Hall). unfold registry in Hreg.
  destruct (tokenizer st self) as [ft|]; [|done]. cbn in *.
  unfold FloatingTokenizer.match_token.
  destruct (FloatingTokenizer.matchers st ft) as [l|]; [|done]. cbn in *.
  destruct (heap st !! l) as [[items'| | |]|]; try done.
  injection Hreg as ->.
  rewrite (try_matchers_declined _ _ _ Hall). cbn.
  by rewrite set_heap_same.
Qed.

Lemma loop_body_no_match st self ln line pos out :
  let pos1 := pos + Str.whitespace_end (Str.slice_from line pos) in
  pos1 <> Str.len line ->
  no_matcher_matches st self (Str.slice_from line pos1) ->
  loop_body st self ln line pos out = Raises (BadTokenException ln pos1 line).
Proof.
  intros pos1 Hne Hno. unfold loop_body. cbn zeta. fold pos1.
  destruct (Z.eqb_spec pos1 (Str.len line)); [done|].
  by rewrite (no_matcher_matches_match_token _ _ _ Hno).
Qed.

(** More fuel does not change an outcome that was reached. *)
Lemma while_loop_mono fuel fuel' st self ln line pos out r :
  (fuel <= fuel')%nat ->
  while_loop fuel st self ln line pos out = r -> r <> OutOfFuel ->
  while_loop fuel' st self ln line pos out = r.
Proof.
  revert fuel' st pos out.
  induction fuel as [|fuel IH]; intros fuel' st pos out Hle; cbn [while_loop].
  - by intros <-.
  - destruct fuel' as [|fuel']; [lia|]. cbn [while_loop].
    destruct (pos <? Str.len line); [|done].
    destruct (loop_body st self ln line pos out); try done.
    apply IH. lia.
Qed.

Lemma for_lines_mono fuel fuel' st self ln lines out r :
  (fuel <= fuel')%nat ->
  for_lines fuel st self ln lines out = r -> r <> OutOfFuel ->
  for_lines fuel' st self ln lines out = r.
Proof.
  intros Hle. revert st ln out.
  induction lines as [|line lines IH]; intros st ln out; cbn [for_lines]; [done|].
  destruct (while_loop fuel st self ln line 0 out) as [[st1 out1]| | |] eqn:E.
  - rewrite (while_loop_mono _ _ _ _ _ _ _ _ _ Hle E) by done. apply IH.
  - rewrite (while_loop_mono _ _ _ _ _ _ _ _ _ Hle E) by done. done.
  - by intros <-.
  - rewrite (while_loop_mono _ _ _ _ _ _ _ _ _ Hle E) by done. done.
Qed.

Lemma resume_mono fuel fuel' st self n line pos out rest r :
  (fuel <= fuel')%nat ->
  resume fuel st self n line pos out rest = r -> r <> OutOfFuel ->
  resume fuel' st self n line pos out rest = r.
Proof.
  intros Hle. unfold resume.
  destruct (while_loop fuel st self _ line pos out) as [[st1 out1]| | |] eqn:E.
  - rewrite (while_loop_mono _ _ _ _ _ _ _ _ _ Hle E) by done.
    by apply for_lines_mono.
  - rewrite (while_loop_mono _ _ _ _ _ _ _ _ _ Hle E) by done. done.
  - by intros <-.
  - rewrite (while_loop_mono _ _ _ _ _ _ _ _ _ Hle E) by done. done.
Qed.

Lemma lookup_drop_cons (lines : list string) n line :
  lines !! n = Some line -> drop n lines = line :: drop (S n) lines.
Proof.
  revert n. induction lines as [|l lines IH]; intros [|n]; cbn; try done.
  - by intros [= ->].
  - intros H. by rewrite (IH _ H).
Qed.

Lemma while_loop_line_done fuel st self ln line pos out :
  line_done st self ln line pos out ->
  while_loop (S fuel) st self ln line pos out = Return (st, out).
Proof.
  cbn [while_loop]. intros [->| ->]; [done|]. by destruct (pos <? Str.len line).
Qed.

(** From a cursor the scan visits, the rest of the scan decides the
    outcome of the whole scan. *)
Lemma visits_resume st0 self lines n line st pos out :
  visits st0 self lines n line st pos out ->
  forall fuel r,
    resume fuel st self n line pos out (drop (S n) lines) = r ->
    r <> OutOfFuel ->
    exists fuel', for_lines fuel' st0 self 0 lines [] = r.
Proof.
  induction 1 as [line Hl | n line st pos out st' pos' out' Hv IH Hc Hb
                 | n line st pos out line' Hv IH Hd Hl]; intros fuel r Hr Hne.
  - exists fuel. rewrite <- Hr. unfold resume.
    rewrite <- (drop_0 lines) at 1. by rewrite (lookup_drop_cons _ _ _ Hl).
  - apply (IH (S fuel) r); [|done].
    unfold resume in *. cbn [while_loop]. rewrite Hc, Hb.
    destruct (while_loop fuel st' self _ line pos' out') as [[st1 out1]| | |];
      try done.
    apply (for_lines_mono fuel); [lia|done..].
  - apply (IH (S fuel) r); [|done].
    unfold resume at 1. rewrite (while_loop_line_done _ _ _ _ _ _ _ Hd).
    rewrite (lookup_drop_cons _ _ _ Hl). cbn [for_lines].
    apply (resume_mono fuel (S fuel)) in Hr; [|lia|done].
    unfold resume in Hr. by rewrite Nat2Z.inj_succ in Hr.
Qed.

(** A scan raises nothing but the unmatched-input failure. *)
Lemma while_loop_raises fuel st self ln line pos out e :
  while_loop fuel st self ln line pos out = Raise e ->
  exists column, e = BadTokenException ln column line.
Proof.
  revert st pos out. induction fuel as [|fuel IH]; intros st pos out;
    cbn [while_loop]; [done|].
  destruct (pos <? Str.len line); [|done].
  destruct (loop_body st self ln line pos out) eqn:E; try done.
  - intros [= <-]. apply loop_body_Raises in E. eauto.
  - apply IH.
Qed.

Lemma for_lines_raises fuel st self ln lines out e :
  for_lines fuel st self ln lines out = Raise e ->
  exists n column line, e = BadTokenException n column line.
Proof.
  revert st ln out. induction lines as [|line lines IH]; intros st ln out;
    cbn [for_lines]; [done|].
  destruct (while_loop fuel st self ln line 0 out) as [[st1 out1]| | |] eqn:E;
    try done.
  - apply IH.
  - intros [= <-]. apply while_loop_raises in E as [column ->]. eauto.
Qed.

End scanner_facts.

Section token_positions.

Import Tokenizer.
Variables (st0 : store) (self : loc) (lines : list string).

Lemma while_loop_positioned n line fuel :
  forall st pos out st' out',
    visits st0 self lines n line st pos out ->
    Forall (positioned st0 self lines) out ->
    while_loop fuel st self (Z.of_nat n) line pos out = Return (st', out') ->
    Forall (positioned st0 self lines) out' /\
    exists pos', visits st0 self lines n line st' pos' out' /\
                 line_done st' self (Z.of_nat n) line pos' out'.
Proof.
  induction fuel as [|fuel IH]; intros st pos out st' out' Hv Hout;
    cbn [while_loop]; [done|].
  destruct (pos <? Str.len line) eqn:Hc.
  - destruct (loop_body st self (Z.of_nat n) line pos out)
      as [|e|st1 pos1 out1|] eqn:Hb; try done.
    + intros [= <- <-]. split; [done|]. exists pos. split; [done|]. by right.
    + apply IH; [by eapply visits_token|].
      apply loop_body_Continue in Hb
        as (items & i & m & m' & unit & width & Hreg & Hi & Hm & Hcall & _ & _ & ->).
      apply Forall_app. split; [done|]. apply Forall_singleton.
      exists n, (pos + Str.whitespace_end (Str.slice_from line pos)), width.
      split; [|done]. exists line, st, pos, out, items, i, m, m'. by repeat split.
  - intros [= <- <-]. split; [done|]. exists pos. split; [done|]. by left.
Qed.

Lemma for_lines_positioned fuel :
  forall rest n st out st' out',
    drop n lines = rest ->
    (forall line, lines !! n = Some line -> visits st0 self lines n line st 0 out) ->
    Forall (positioned st0 self lines) out ->
    for_lines fuel st self (Z.of_nat n) rest out = Return (st', out') ->
    Forall (positioned st0 self lines) out'.
Proof.
  induction rest as [|line rest IH]; intros n st out st' out' Hdrop Hentry Hout;
    cbn [for_lines].
  - by intros [= <- <-].
  - assert (lines !! n = Some line) as Hl.
    { rewrite <- (Nat.add_0_r n), <- lookup_drop, Hdrop. done. }
    destruct (while_loop fuel st self (Z.of_nat n) line 0 out)
      as [[st1 out1]| | |] eqn:Hw; try done.
    apply while_loop_positioned in Hw as (Hout1 & pos' & Hv & Hd);
      [|by apply Hentry|done].
    replace (Z.of_nat n + 1) with (Z.of_nat (S n)) by lia.
    apply IH; [|intros line' Hl'; by eapply visits_next_line|done].
    rewrite (lookup_drop_cons _ _ _ Hl) in Hdrop. congruence.
Qed.

End token_positions.

(** C9: every token of a successful scan was produced at a cursor the scan
    visits by a registered matcher that returned [width] there; its position
    is (line number, cursor after whitespace stripping, cursor + width), so
    end offset minus start offset is that width. *)
Theorem C9_token_position_is_cursor_and_width
    (fuel : nat) (st0 : store) (self : loc) (stream : string)
    (st' : store) (output : list Token) :
  Tokenizer.match_tokens fuel st0 self stream = Return (st', output) ->
  forall tok, tok ∈ output ->
    exists n pos width,
      matched_at st0 self (Str.splitlines stream) n pos (Token_token tok) width /\
      Token_line_info tok = mkLineInfo (Z.of_nat n) pos (Some (pos + width)) /\
      exists e, line_end (Token_line_info tok) = Some e /\
                e - line_start (Token_line_info tok) = width.
Proof.
  unfold Tokenizer.match_tokens. intros Hscan tok Hin.
  apply (for_lines_positioned st0 self (Str.splitlines stream) fuel _ O) in Hscan;
    [|done|by intros line; apply visits_first|done].
  rewrite Forall_forall in Hscan.
  destruct (Hscan tok Hin) as (n & pos & width & Hm & Hpos).
  exists n, pos, width. split; [done|]. split; [done|].
  exists (pos + width). rewrite Hpos. cbn. split; [done|lia].
Qed.

(** The two tokens of the line "; // x" of the demonstration's tokenizer. *)
Lemma C9_token_position_witness :
  exists st' output,
    Tokenizer.match_tokens 10 demo_store demo_tokenizer "; // x" = Return (st', output) /\
    forall tok, tok ∈ output ->
      exists n pos width,
        matched_at demo_store demo_tokenizer (Str.splitlines "; // x") n pos
                   (Token_token tok) width /\
        Token_line_info tok = mkLineInfo (Z.of_nat n) pos (Some (pos + width)) /\
        exists e, line_end (Token_line_info tok) = Some e /\
                  e - line_start (Token_line_info tok) = width.
Proof.
  eexists. eexists. split.
  - vm_compute. reflexivity.
  - eapply (C9_token_position_is_cursor_and_width 10 demo_store demo_tokenizer "; // x").
    vm_compute. reflexivity.
Defined.

(** C8: when the scan visits a cursor at which, after whitespace stripping,
    text remains and no registered matcher matches it, the scan raises the
    unmatched-input failure with the line number, the stripped cursor as
    column and the whole line, and returns no token sequence; scanning
    "@@@" with no matcher for it raises it with line 0, column 0 and line
    text "@@@". *)
Theorem C8_unmatched_input_raises :
  (forall st0 self stream n line st pos out,
     visits st0 self (Str.splitlines stream) n line st pos out ->
     (pos <? Str.len line) = true ->
     let column := pos + Str.whitespace_end (Str.slice_from line pos) in
     column <> Str.len line ->
     no_matcher_matches st self (Str.slice_from line column) ->
     (exists fuel0, forall fuel, (fuel0 <= fuel)%nat ->
        Tokenizer.match_tokens fuel st0 self stream
          = Raise (BadTokenException (Z.of_nat n) column line)) /\
     (forall fuel r, Tokenizer.match_tokens fuel st0 self stream <> Return r)) /\
  (forall st self fuel,
     no_matcher_matches st self "@@@" ->
     Tokenizer.match_tokens (S fuel) st self "@@@"
       = Raise (BadTokenException 0 0 "@@@")).
Proof.
  split.
  - intros st0 self stream n line st pos out Hv Hc column Hne Hno.
    assert (exists fuel',
              Tokenizer.for_lines fuel' st0 self 0 (Str.splitlines stream) []
                = Raise (BadTokenException (Z.of_nat n) column line))
      as [fuel' Hraise].
    { apply (visits_resume _ _ _ _ _ _ _ _ Hv 1%nat); [|done].
      unfold resume. cbn [Tokenizer.while_loop]. rewrite Hc.
      by rewrite (loop_body_no_match _ _ _ _ _ _ Hne Hno). }
    split.
    + exists fuel'. intros fuel Hle. unfold Tokenizer.match_tokens.
      by apply (for_lines_mono fuel').
    + intros fuel r Hret. unfold Tokenizer.match_tokens in Hret.
      apply (for_lines_mono _ (Nat.max fuel fuel')) in Hret; [|lia|done].
      apply (for_lines_mono _ (Nat.max fuel fuel')) in Hraise; [|lia|done].
      congruence.
  - intros st self fuel Hno. unfold Tokenizer.match_tokens.
    change (Str.splitlines "@@@") with ["@@@"].
    cbn [Tokenizer.for_lines Tokenizer.while_loop].
    change (0 <? Str.len "@@@") with true. cbv iota.
    by rewrite (loop_body_no_match st self 0 "@@@" 0 []).
Qed.

(** In the demonstration's tokenizer nothing matches "@": after the ";" of
    "; @" the scan stops at column 2, and "@@@" stops it at column 0. *)
Lemma C8_unmatched_input_witness :
  ((exists fuel0, forall fuel, (fuel0 <= fuel)%nat ->
      Tokenizer.match_tokens fuel demo_store demo_tokenizer "; @"
        = Raise (BadTokenException 0 2 "; @")) /\
   (forall fuel r,
      Tokenizer.match_tokens fuel demo_store demo_tokenizer "; @" <> Return r)) /\
  Tokenizer.match_tokens 1 demo_store demo_tokenizer "@@@"
    = Raise (BadTokenException 0 0 "@@@").
Proof.
  split.
  - eapply (proj1 C8_unmatched_input_raises demo_store demo_tokenizer "; @"
              O "; @" _ 1 _).
    + eapply visits_token.
      * apply visits_first. by vm_compute.
      * by vm_compute.
      * vm_compute. reflexivity.
    + by vm_compute.
    + by vm_compute.
    + exists [1%nat; 2%nat]. split; [by vm_compute|].
      repeat constructor; eexists; (split; [by vm_compute|by vm_compute]).
  - apply (proj2 C8_unmatched_input_raises demo_store demo_tokenizer O).
    exists [1%nat; 2%nat]. split; [by vm_compute|].
    repeat constructor; eexists; (split; [by vm_compute|by vm_compute]).
Defined.

(** A scan never raises the unterminated-construct failure:
    [match_tokens] has no call of [end_matching]. *)
Lemma match_tokens_never_NoEnd fuel st self stream ln pos :
  Tokenizer.match_tokens fuel st self stream <> Raise (NoEndException ln pos).
Proof.
  intros H. apply for_lines_raises in H as (n & column & line & H). discriminate H.
Qed.

(** C1: a multi-line comment is opened on the first of two lines and never
    closed.  The scan returns the two tokens it built; the comment matcher is
    left inside the comment, and [end_matching], which would raise the
    unterminated-construct failure for the opening marker at (0, 0) on these
    tokens, has not been called. *)
Theorem C1_unterminated_comment_is_returned :
  let inside := CommentMatcher.set_is_multiline comm_match true in
  exists st' output,
    (forall fuel,
       Tokenizer.match_tokens (S (S fuel)) demo_store demo_tokenizer
                              ("/* abc" +:+ NL +:+ "def")
         = Return (st', output)) /\
    output = [mkToken (mkFloatingToken "MULTILINE_START" None) (mkLineInfo 0 0 (Some 15));
              mkToken (mkFloatingToken "MULTILINE_END" None) (mkLineInfo 1 0 (Some 3))] /\
    heap st' !! 1%nat = Some (OMatcher (ACommentMatcher inside)) /\
    CommentMatcher.end_matching inside output = Raise (NoEndException 0 0).
Proof.
  eexists. eexists. split; [intros fuel; vm_compute; reflexivity|]. by vm_compute.
Qed.

(** When the kind of the start marker happens to have two characters, as
    the literal "/*" has, the start token has the width of the literal and
    the line "/* x */ ;" gives the three tokens. *)
Lemma scan_same_line_comment_two_character_kind (c1 c2 : ascii) (fuel : nat) :
  let start := String c1 (String c2 EmptyString) in
  scan_tokens (S (S (S (S fuel))))
    (setup [ACommentMatcher
              (CommentMatcher.init (mkSymbol "/*" start)
                                   (mkSymbol "*/" "MULTILINE_END")
                                   (mkSymbol "//" "SINGLE_COMMENT"));
            ASymbolMatcher semicolon_match])
    "/* x */ ;"
  = Return [mkToken (mkFloatingToken start None) (mkLineInfo 0 0 (Some 2));
            mkToken (mkFloatingToken "MULTILINE_END" None) (mkLineInfo 0 3 (Some 7));
            mkToken (mkFloatingToken "SYMB_SEMICOLON" (Some ";"))
                    (mkLineInfo 0 8 (Some 9))].
Proof. by vm_compute. Qed.

(** C4: with the comment matcher of the demonstration registered before a
    symbol matcher for ";", scanning "/* x */ ;" yields one token only: the
    start-comment token, whose width 15 (the length of "MULTILINE_START")
    carries the cursor past the end of the nine-character line. *)
Theorem C4_comment_closed_on_same_line :
  Str.len "/* x */ ;" = 9 /\
  forall fuel,
    scan_tokens (S (S fuel)) demo_setup "/* x */ ;"
      = Return [mkToken (mkFloatingToken "MULTILINE_START" None)
                        (mkLineInfo 0 0 (Some 15))].
Proof. split; [done|]. intros fuel. by vm_compute. Qed.

(** C7: the symbol matcher returns the first pair, in list order, whose
    literal is a prefix of the stream, with the literal's length as width,
    and answers "no match" only when no literal is a prefix; with "!==",
    "!=", "!" registered in that order, scanning "!==" yields exactly one
    token, of the kind of "!==". *)
Theorem C7_symbol_matcher_first_match :
  (forall (self : SymbolMatcher.t) (stream : string),
     match SymbolMatcher.match_token self stream with
     | (Some unit, width) =>
         exists pre sym post,
           SymbolMatcher.symbols self = pre ++ sym :: post /\
           Forall (fun s => ~ is_prefix (Symbol_symbol s) stream) pre /\
           is_prefix (Symbol_symbol sym) stream /\
           unit = mkFloatingToken (Symbol_token sym) (Some (Symbol_symbol sym)) /\
           width = Str.len (Symbol_symbol sym)
     | (None, width) =>
         width = -1 /\
         Forall (fun s => ~ is_prefix (Symbol_symbol s) stream)
                (SymbolMatcher.symbols self)
     end) /\
  (forall (k1 k2 k3 : string) (fuel : nat),
     scan_tokens (S (S fuel))
       (setup [ASymbolMatcher
                 (SymbolMatcher.mk [mkSymbol "!==" k1; mkSymbol "!=" k2; mkSymbol "!" k3])])
       "!=="
     = Return [mkToken (mkFloatingToken k1 (Some "!==")) (mkLineInfo 0 0 (Some 3))]).
Proof.
  split.
  - intros self stream. apply match_symbols_first.
  - intros k1 k2 k3 fuel. by vm_compute.
Qed.

(** ** Bulk specifications of the symbol matcher *)

Section bulk_specification.

Import SymbolMatcher.
Implicit Types (s t a b ws : string) (c : ascii).

Lemma all_space_app s t :
  Str.all_space (s +:+ t) = Str.all_space s && Str.all_space t.
Proof.
  induction s as [|c s IH]; [done|]. rewrite app_cons. cbn.
  by rewrite IH, andb_assoc.
Qed.

Lemma has_blank_app s t : has_blank (s +:+ t) = has_blank s || has_blank t.
Proof.
  induction s as [|c s IH]; [done|]. rewrite app_cons. cbn.
  by rewrite IH, orb_assoc.
Qed.

Lemma field_not_all_space b : is_field b -> Str.all_space b = false.
Proof.
  intros [Hne Hns]. destruct b as [|c b]; [done|]. cbn in *.
  apply andb_true_iff in Hns as [Hc _]. by destruct (Str.isspace_char c).
Qed.

Lemma field_no_blank b : no_space b = true -> has_blank b = false.
Proof.
  induction b as [|c b IH]; [done|]. cbn.
  intros [Hc Hb]%andb_true_iff. rewrite (IH Hb), orb_false_r.
  destruct (Ascii.eqb_spec c " ") as [->|]; done.
Qed.

Lemma lstrip_all_space ws s : Str.all_space ws = true -> Str.lstrip (ws +:+ s) = Str.lstrip s.
Proof.
  induction ws as [|c ws IH]; [done|]. cbn.
  intros [Hc Hws]%andb_true_iff. rewrite app_cons. cbn. rewrite Hc. auto.
Qed.

Lemma lstrip_field a s : is_field a -> Str.lstrip (a +:+ s) = a +:+ s.
Proof.
  intros [Hne Hns]. destruct a as [|c a]; [done|]. cbn in Hns.
  apply andb_true_iff in Hns as [Hc _]. rewrite app_cons. cbn.
  by destruct (Str.isspace_char c).
Qed.

Lemma rstrip_all_space ws : Str.all_space ws = true -> Str.rstrip ws = EmptyString.
Proof.
  induction ws as [|c ws IH]; [done|]. cbn.
  intros [Hc Hws]%andb_true_iff. by rewrite (IH Hws), Hc.
Qed.

Lemma rstrip_app_all_space s ws :
  Str.all_space ws = true -> Str.rstrip (s +:+ ws) = Str.rstrip s.
Proof.
  intros Hws. induction s as [|c s IH].
  - by apply rstrip_all_space.
  - rewrite app_cons. cbn. by rewrite IH.
Qed.

Lemma rstrip_no_space b : no_space b = true -> Str.rstrip b = b.
Proof.
  induction b as [|c b IH]; [done|]. cbn.
  intros [Hc Hb]%andb_true_iff. rewrite (IH Hb).
  destruct b; [|done]. by destruct (Str.isspace_char c).
Qed.

Lemma rstrip_app_field s b : is_field b -> Str.rstrip (s +:+ b) = s +:+ b.
Proof.
  intros [Hne Hns]. induction s as [|c s IH].
  - by apply rstrip_no_space.
  - rewrite app_cons. cbn. rewrite IH.
    destruct (s +:+ b) eqn:E; [|done].
    destruct s; [|done]. by destruct Hne.
Qed.

Lemma rstrip_app_fixed s t :
  Str.rstrip t = t -> t <> EmptyString -> Str.rstrip (s +:+ t) = s +:+ t.
Proof.
  intros Ht Hne. induction s as [|c s IH]; [done|].
  rewrite app_cons. cbn. rewrite IH.
  destruct (s +:+ t) eqn:E; [|done]. by destruct s.
Qed.

Lemma strip_field_mid q a u :
  is_field a -> Str.all_space q = true -> Str.all_space u = true ->
  Str.strip (q +:+ a +:+ u) = a.
Proof.
  intros Ha Hq Hu. unfold Str.strip.
  rewrite (lstrip_all_space _ _ Hq), (lstrip_field _ _ Ha).
  rewrite (rstrip_app_all_space _ _ Hu). apply rstrip_no_space, Ha.
Qed.

(** A body with at least one field starts and ends with a character that
    is not whitespace. *)
Lemma joined_ends a fs body :
  joined (a :: fs) body ->
  (exists r, body = a +:+ r) /\ is_field a /\
  Str.rstrip body = body /\ body <> EmptyString.
Proof.
  remember (a :: fs) as l eqn:El. intros H. revert a fs El.
  induction H as [|a0 Ha0|a0 ws b fs0 rest Ha0 Hws Hb Hj IH]; intros a fs El;
    [done| |]; injection El as <- <-.
  - split; [exists EmptyString; by rewrite app_empty_r|].
    split; [done|]. split; [apply rstrip_no_space, Ha0|apply Ha0].
  - destruct (IH b fs0 eq_refl) as (_ & _ & Hr & Hne).
    split; [by eexists|]. split; [done|]. split.
    + rewrite <- app_assoc_str. by apply rstrip_app_fixed.
    + destruct Ha0 as [Hne0 _]. by destruct a0.
Qed.

(** Stripping a line leaves its fields and what separates them. *)
Lemma strip_joined fs body ws1 ws3 :
  joined fs body ->
  Str.all_space ws1 = true -> Str.all_space ws3 = true ->
  Str.strip (ws1 +:+ body +:+ ws3) = body.
Proof.
  intros Hj H1 H3. unfold Str.strip. rewrite (lstrip_all_space _ _ H1).
  destruct fs as [|a fs].
  - inversion Hj; subst. rewrite app_empty_l.
    rewrite <- (app_empty_r ws3), (lstrip_all_space _ _ H3). done.
  - destruct (joined_ends _ _ _ Hj) as ([r ->] & Ha & Hr & _).
    rewrite app_assoc_str, (lstrip_field _ _ Ha), <- app_assoc_str.
    by rewrite (rstrip_app_all_space _ _ H3).
Qed.

Lemma split_no_blank s : has_blank s = false -> Str.split " " s = [s].
Proof.
  induction s as [|c s IH]; [done|]. cbn.
  intros [Hc Hs]%orb_false_iff. by rewrite Hc, (IH Hs).
Qed.

Lemma split_at_blank s t :
  has_blank s = false ->
  Str.split " " (s +:+ " " +:+ t) = s :: Str.split " " t.
Proof.
  induction s as [|c s IH]; [done|]. cbn.
  intros [Hc Hs]%orb_false_iff. rewrite app_cons. cbn. by rewrite Hc, (IH Hs).
Qed.

(** A separator with a space character in it is cut at its first one. *)
Lemma first_blank ws :
  has_blank ws = true -> Str.all_space ws = true ->
  exists u v, ws = u +:+ " " +:+ v /\ has_blank u = false /\
              Str.all_space u = true /\ Str.all_space v = true.
Proof.
  induction ws as [|c ws IH]; [done|]. cbn.
  intros Hb [Hc Hws]%andb_true_iff.
  destruct (Ascii.eqb_spec c " ") as [->|Hne].
  - by exists EmptyString, ws.
  - destruct (IH Hb Hws) as (u & v & -> & Hu & Hus & Hvs).
    exists (String c u), v. repeat split; try done.
    + cbn. rewrite Hu. by destruct (Ascii.eqb_spec c " ").
    + cbn. by rewrite Hc, Hus.
Qed.

Lemma split_nonempty s : exists p ps, Str.split " " s = p :: ps.
Proof.
  induction s as [|c s (p & ps & IH)]; cbn; [by eauto|].
  rewrite IH. destruct (Ascii.eqb c " "); eauto.
Qed.

Lemma split_all_space ws :
  Str.all_space ws = true ->
  Forall (fun p => Str.all_space p = true) (Str.split " " ws).
Proof.
  induction ws as [|c ws IH]; cbn; [by repeat constructor|].
  intros [Hc Hws]%andb_true_iff. specialize (IH Hws).
  destruct (Ascii.eqb c " "); [by constructor|].
  destruct (Str.split " " ws) as [|p ps]; [by repeat constructor; cbn; rewrite Hc|].
  inversion IH; subst. constructor; [|done]. cbn. by rewrite Hc.
Qed.

(** Whitespace in front of a string adds whitespace-only pieces and some
    whitespace in front of the string's first piece. *)
Lemma split_space_prefix ws :
  Str.all_space ws = true ->
  exists ps q,
    Forall (fun p => Str.all_space p = true) ps /\ Str.all_space q = true /\
    forall s p0 pr, Str.split " " s = p0 :: pr ->
                    Str.split " " (ws +:+ s) = ps ++ (q +:+ p0) :: pr.
Proof.
  induction ws as [|c ws IH].
  - intros _. exists [], EmptyString. by repeat split.
  - cbn. intros [Hc Hws]%andb_true_iff.
    destruct (IH Hws) as (ps & q & Hps & Hq & Hsplit).
    destruct (Ascii.eqb c " ") eqn:Eb.
    + exists (EmptyString :: ps), q. split; [by constructor|]. split; [done|].
      intros s p0 pr Hs. rewrite app_cons. cbn. by rewrite Eb, (Hsplit _ _ _ Hs).
    + destruct ps as [|p ps].
      * exists [], (String c q). split; [done|]. split; [cbn; by rewrite Hc|].
        intros s p0 pr Hs. rewrite app_cons. cbn.
        by rewrite Eb, (Hsplit _ _ _ Hs).
      * exists (String c p :: ps), q. inversion Hps; subst.
        split; [constructor; [cbn; by rewrite Hc|done]|]. split; [done|].
        intros s p0 pr Hs. rewrite app_cons. cbn.
        by rewrite Eb, (Hsplit _ _ _ Hs).
Qed.

Lemma keeps_all_space p : Str.all_space p = true -> keeps p = false.
Proof. unfold keeps. destruct p as [|c p]; [done|]. cbn. by intros ->. Qed.

Lemma keeps_not_all_space x : Str.all_space x = false -> keeps x = true.
Proof. unfold keeps. destruct x as [|c x]; [done|]. cbn. by intros ->. Qed.

Lemma filter_all_space ps :
  Forall (fun p => Str.all_space p = true) ps -> List.filter keeps ps = [].
Proof.
  induction 1 as [|p ps Hp _ IH]; [done|]. cbn. by rewrite (keeps_all_space _ Hp).
Qed.

(** The comprehension recovers the fields of a body, also behind
    whitespace. *)
Lemma fields_of_joined fs body :
  joined fs body ->
  forall ws, Str.all_space ws = true ->
    Str.strip <$> List.filter keeps (Str.split " " (ws +:+ body)) = fs.
Proof.
  induction 1 as [|a Ha|a sep b fs rest Ha Hsep Hblank Hj IH]; intros ws Hws.
  - rewrite app_empty_r. by rewrite (filter_all_space _ (split_all_space _ Hws)).
  - destruct (split_space_prefix _ Hws) as (ps & q & Hps & Hq & Hsplit).
    rewrite (Hsplit a a []) by apply split_no_blank, field_no_blank, Ha.
    rewrite List.filter_app, (filter_all_space _ Hps). cbn [List.filter app].
    rewrite keeps_not_all_space
      by (rewrite all_space_app, (field_not_all_space _ Ha); apply andb_false_r).
    cbn. rewrite <- (app_empty_r a) at 1.
    by rewrite (strip_field_mid q a EmptyString Ha Hq eq_refl).
  - destruct (first_blank _ Hblank Hsep) as (u & v & -> & Hu & Hus & Hvs).
    destruct (split_space_prefix _ Hws) as (ps & q & Hps & Hq & Hsplit).
    rewrite (Hsplit _ (a +:+ u) (Str.split " " (v +:+ rest))).
    2:{ rewrite !app_assoc_str, <- (app_assoc_str a u).
        apply split_at_blank.
        rewrite has_blank_app, Hu. by rewrite field_no_blank by apply Ha. }
    rewrite List.filter_app, (filter_all_space _ Hps). cbn [List.filter app].
    rewrite keeps_not_all_space.
    2:{ rewrite !all_space_app, (field_not_all_space _ Ha).
        cbn. apply andb_false_r. }
    rewrite fmap_cons, (strip_field_mid _ _ _ Ha Hq Hus). f_equal. by apply IH.
Qed.

(** A line splits into exactly the fields it holds. *)
Lemma split_line_of_fields fs line :
  line_of_fields fs line -> split_line line = fs.
Proof.
  intros (ws1 & body & ws3 & -> & Hj & H1 & H3).
  unfold split_line. rewrite (strip_joined _ _ _ _ Hj H1 H3).
  by apply (fields_of_joined _ _ Hj EmptyString).
Qed.

Lemma split_line_of_pair sym line :
  line_of_pair sym line ->
  split_line line = [Symbol_symbol sym; Symbol_token sym].
Proof. apply split_line_of_fields. Qed.

(** A blank line has no field. *)
Lemma split_line_blank line : Str.all_space line = true -> split_line line = [].
Proof.
  intros H. unfold split_line, Str.strip.
  rewrite <- (app_empty_r line), (lstrip_all_space _ _ H). done.
Qed.

Lemma init_lines_pairs syms lines acc :
  Forall2 line_of_pair syms lines ->
  init_lines lines acc = Return (acc ++ syms).
Proof.
  intros H. revert acc. induction H as [|sym line syms lines Hp _ IH]; intros acc.
  - cbn. by rewrite app_nil_r.
  - cbn [init_lines]. rewrite (split_line_of_pair _ _ Hp).
    rewrite IH, <- app_assoc. by destruct sym.
Qed.

(** The loop over the lines stops at the first line that does not split
    into exactly two fields, and raises for it. *)
Lemma init_lines_spec lines acc :
  match init_lines lines acc with
  | Return l =>
      Forall (fun line => length (split_line line) = 2%nat) lines
  | Raise e =>
      exists pre line post,
        lines = pre ++ line :: post /\
        Forall (fun line => length (split_line line) = 2%nat) pre /\
        length (split_line line) <> 2%nat /\
        e = complaint line
  | _ => False
  end.
Proof.
  revert acc. induction lines as [|line lines IH]; intros acc; cbn [init_lines].
  - constructor.
  - destruct (split_line line) as [|a [|b [|c l]]] eqn:E.
    1,2,4: exists [], line, lines; rewrite E; by repeat split.
    specialize (IH (acc ++ [mkSymbol a b])).
    destruct (init_lines lines (acc ++ [mkSymbol a b])) as [l|e| |]; try done.
    + constructor; [by rewrite E|done].
    + destruct IH as (pre & bad & post & -> & Hpre & Hbad & ->).
      exists (line :: pre), bad, post. repeat split; try done.
      constructor; [by rewrite E|done].
Qed.

Lemma init_unfold spec :
  init (Some spec) =
    match init_lines (Str.splitlines spec) [] with
    | Return l => Return (mk l)
    | Raise e => Raise e
    | OutOfFuel => OutOfFuel
    | Wrong => Wrong
    end.
Proof. by destruct spec. Qed.

End bulk_specification.

(** C6, as stated, fails on the code in two ways.  A line whose literal and
    kind are separated by a tab alone is rejected, and a blank line between
    two well-formed lines makes the construction fail. *)
Lemma C6_tab_and_blank_line_rejected :
  (let spec := "!" +:+ TAB +:+ "NOT" in
   is_field "!" /\ is_field "NOT" /\ Str.all_space TAB = true /\
   Str.splitlines spec = [spec] /\
   SymbolMatcher.init (Some spec) = Raise (SymbolMatcher.complaint spec) /\
   SymbolMatcher.init (Some spec) <> Return (SymbolMatcher.mk [mkSymbol "!" "NOT"])) /\
  (let spec := "! NOT" +:+ NL +:+ NL +:+ "~ NOT" in
   Str.splitlines spec = ["! NOT"; EmptyString; "~ NOT"] /\
   SymbolMatcher.split_line "! NOT" = ["!"; "NOT"] /\
   SymbolMatcher.split_line "~ NOT" = ["~"; "NOT"] /\
   SymbolMatcher.init (Some spec) = Raise (SymbolMatcher.complaint EmptyString)).
Proof. by vm_compute. Qed.

(** C6, amended: every line holding one literal and one kind separated by a
    run of whitespace in which a space character occurs (whitespace may
    precede the literal and follow the kind) yields one (literal, kind) pair,
    in line order; construction fails, with a ValueError naming the line,
    exactly when some line of the specification, a blank one included, does
    not split at its space characters into exactly two fields.  A line that
    holds any number of fields separated in this way splits into exactly
    these fields, and a blank line into none. *)
Theorem C6_bulk_specification_lines (spec : string) :
  (forall syms,
     Forall2 line_of_pair syms (Str.splitlines spec) ->
     SymbolMatcher.init (Some spec) = Return (SymbolMatcher.mk syms)) /\
  ((exists e, SymbolMatcher.init (Some spec) = Raise e) <->
   Exists (fun line => length (SymbolMatcher.split_line line) <> 2%nat)
          (Str.splitlines spec)) /\
  (forall e, SymbolMatcher.init (Some spec) = Raise e ->
     exists line, line ∈ Str.splitlines spec /\
                  length (SymbolMatcher.split_line line) <> 2%nat /\
                  e = SymbolMatcher.complaint line) /\
  (forall line fs, line_of_fields fs line -> SymbolMatcher.split_line line = fs) /\
  (forall line, Str.all_space line = true -> SymbolMatcher.split_line line = []).
Proof.
  rewrite init_unfold.
  pose proof (init_lines_spec (Str.splitlines spec) []) as Hspec.
  repeat split.
  - intros syms Hsyms. by rewrite (init_lines_pairs _ _ [] Hsyms).
  - intros [e He].
    destruct (SymbolMatcher.init_lines _ _) as [l|e'| |]; try done.
    destruct Hspec as (pre & line & post & -> & _ & Hbad & _).
    apply Exists_app. right. by left.
  - intros Hex.
    destruct (SymbolMatcher.init_lines _ _) as [l|e'| |]; try done; [|by eexists].
    apply Exists_exists in Hex as (line & Hin & Hbad).
    rewrite Forall_forall in Hspec. by destruct (Hbad (Hspec line Hin)).
  - intros e He.
    destruct (SymbolMatcher.init_lines _ _) as [l|e'| |]; try done.
    injection He as ->.
    destruct Hspec as (pre & line & post & -> & _ & Hbad & ->).
    exists line. repeat split; try done. apply elem_of_app. right. by left.
  - intros line fs. apply split_line_of_fields.
  - apply split_line_blank.
Qed.

(** Two lines, the second with a space and a tab between its fields. *)
Lemma C6_bulk_specification_witness :
  SymbolMatcher.init (Some ("?  Q" +:+ NL +:+ " !== " +:+ TAB +:+ "X "))
  = Return (SymbolMatcher.mk [mkSymbol "?" "Q"; mkSymbol "!==" "X"]).
Proof.
  apply (proj1 (C6_bulk_specification_lines _)).
  change (Str.splitlines _) with ["?  Q"; " !== " +:+ TAB +:+ "X "].
  constructor; [|constructor; [|constructor]].
  - exists EmptyString, ("?" +:+ "  " +:+ "Q"), EmptyString.
    split; [by vm_compute|]. split; [|done].
    apply joined_cons; [by vm_compute..|]. apply joined_one. by vm_compute.
  - exists " ", ("!==" +:+ (" " +:+ TAB) +:+ "X"), " ".
    split; [by vm_compute|]. split; [|done].
    apply joined_cons; [by vm_compute..|]. apply joined_one. by vm_compute.
Defined.

(** ** Further properties: what a matcher call can do *)

Section matcher_calls.

Implicit Types (m : TokenMatcher) (stream : string).

Lemma find_le sub s i : Str.find sub s = Some i -> (i <= String.length s)%nat.
Proof. intros H. by apply find_Some in H as [H _]. Qed.

(** A call changes nothing but the inside flag of a comment matcher; the
    flag is raised only together with a token of the start-marker kind. *)
Lemma match_token_evolution m stream m' r :
  TokenMatcher_match_token m stream = (m', r) ->
  match m with
  | ASymbolMatcher _ => m' = m
  | ACommentMatcher cm =>
      exists b, m' = ACommentMatcher (CommentMatcher.set_is_multiline cm b) /\
                (CommentMatcher.is_multiline cm = false -> b = true ->
                 exists w, r = (Some (mkFloatingToken
                                        (Symbol_token (CommentMatcher.ml_start cm)) None), w))
  end.
Proof.
  destruct m as [sm|cm]; cbn.
  - by intros [= <- _].
  - unfold CommentMatcher.match_token.
    destruct cm as [[] s e c]; cbn.
    + destruct (Str.find _ _); intros [= <- <-].
      * by exists false.
      * by exists true.
    + destruct (Str.startswith stream (Symbol_symbol c)).
      { intros [= <- <-]. by exists false. }
      destruct (Str.startswith stream (Symbol_symbol s)); intros [= <- <-].
      * exists true. split; [done|]. by eexists.
      * by exists false.
Qed.

Lemma same_object_refl o : same_object o o.
Proof. destruct o as [|[sm|[b s e c]]| |]; cbn; try done. by exists b. Qed.

Lemma same_object_trans o1 o2 o3 :
  same_object o1 o2 -> same_object o2 o3 -> same_object o1 o3.
Proof.
  destruct o1 as [|[sm|cm]| |]; cbn; try by intros ->.
  intros [b ->]. cbn. intros [b' ->]. by exists b'.
Qed.

Lemma same_object_call m stream :
  same_object (OMatcher m) (OMatcher (fst (TokenMatcher_match_token m stream))).
Proof.
  destruct (TokenMatcher_match_token m stream) as [m' r] eqn:E.
  apply match_token_evolution in E. destruct m as [sm|cm]; cbn.
  - by rewrite E.
  - destruct E as (b & -> & _). by exists b.
Qed.


End matcher_calls.

(** X1: a call that matches never returns a negative width, and a call that
    does not match returns -1: the width tells a match from "no match". *)
Theorem match_width_sign (m : TokenMatcher) (stream : string) :
  match snd (TokenMatcher_match_token m stream) with
  | (Some _, width) => 0 <= width
  | (None, width) => width = -1
  end.
Proof.
  destruct m as [sm|cm]; cbn.
  - pose proof (match_symbols_first (SymbolMatcher.symbols sm) stream) as H.
    unfold SymbolMatcher.match_token.
    destruct (SymbolMatcher.match_symbols _ _) as [[u|] w].
    + destruct H as (_ & sym & _ & _ & _ & _ & _ & ->). apply len_nonneg.
    + by destruct H.
  - unfold CommentMatcher.match_token.
    destruct (CommentMatcher.match_token cm stream) as [cm' r] eqn:E.
    unfold CommentMatcher.match_token in E.
    destruct (CommentMatcher.is_multiline cm).
    + destruct (Str.find _ _); injection E as <- <-; cbn; [lia|apply len_nonneg].
    + destruct (Str.startswith stream _);
        [injection E as <- <-; apply len_nonneg|].
      destruct (Str.startswith stream _); injection E as <- <-; cbn;
        [apply len_nonneg|done].
Qed.

(** ** Further properties: the cursors of a scan *)

Section scan_cursors.

Import Tokenizer.
Variables (st0 : store) (self : loc) (lines : list string).

(** A loop that returns was left at a cursor the scan visits. *)
Lemma while_loop_visits n line fuel :
  forall st pos out st' out',
    visits st0 self lines n line st pos out ->
    while_loop fuel st self (Z.of_nat n) line pos out = Return (st', out') ->
    exists pos', visits st0 self lines n line st' pos' out' /\
                 line_done st' self (Z.of_nat n) line pos' out'.
Proof.
  induction fuel as [|fuel IH]; intros st pos out st' out' Hv;
    cbn [while_loop]; [done|].
  destruct (pos <? Str.len line) eqn:Hc.
  - destruct (loop_body st self (Z.of_nat n) line pos out)
      as [|e|st1 pos1 out1|] eqn:Hb; try done.
    + intros [= <- <-]. exists pos. split; [done|]. by right.
    + apply IH. by eapply visits_token.
  - intros [= <- <-]. exists pos. split; [done|]. by left.
Qed.


Lemma for_lines_visits fuel :
  forall rest n st out st' out',
    drop n lines = rest -> rest <> [] ->
    (forall line, lines !! n = Some line -> visits st0 self lines n line st 0 out) ->
    for_lines fuel st self (Z.of_nat n) rest out = Return (st', out') ->
    exists n' line pos, visits st0 self lines n' line st' pos out'.
Proof.
  induction rest as [|line rest IH]; intros n st out st' out' Hdrop Hne Hentry;
    [done|]. cbn [for_lines].
  assert (lines !! n = Some line) as Hl.
  { rewrite <- (Nat.add_0_r n), <- lookup_drop, Hdrop. done. }
  destruct (while_loop fuel st self (Z.of_nat n) line 0 out)
    as [[st1 out1]| | |] eqn:Hw; try done.
  apply while_loop_visits in Hw as (pos' & Hv & Hd); [|by apply Hentry].
  replace (Z.of_nat n + 1) with (Z.of_nat (S n)) by lia.
  destruct rest as [|line' rest].
  - cbn. intros [= <- <-]. eauto.
  - apply IH; [|done|intros l Hl'; by eapply visits_next_line].
    rewrite (lookup_drop_cons _ _ _ Hl) in Hdrop. congruence.
Qed.


End scan_cursors.

Section scan_results.

Import Tokenizer.

(** A scan that returns either had no line to visit or was left at a
    cursor it visits. *)
Lemma match_tokens_visits fuel st0 self stream st' out :
  match_tokens fuel st0 self stream = Return (st', out) ->
  (Str.splitlines stream = [] /\ st' = st0 /\ out = []) \/
  exists n line pos, visits st0 self (Str.splitlines stream) n line st' pos out.
Proof.
  unfold match_tokens. intros H.
  destruct (Str.splitlines stream) as [|l ls] eqn:E.
  - left. cbn in H. by injection H as <- <-.
  - right. rewrite <- E. rewrite <- E in H.
    apply (for_lines_visits st0 self (Str.splitlines stream) fuel
             (Str.splitlines stream) O) in H; try done.
    + by rewrite E.
    + intros line. apply visits_first.
Qed.


End scan_results.

(** ** Further properties: slices and the whitespace pattern *)

Section slice_facts.

Implicit Types (s : string) (n : nat).

Lemma whitespace_end_bounds s : 0 <= Str.whitespace_end s <= Str.len s.
Proof.
  unfold Str.len. induction s as [|c s IH]; cbn; [lia|].
  destruct (Str.isspace_char c); lia.
Qed.

Lemma drop_whitespace s :
  Str.drop (Z.to_nat (Str.whitespace_end s)) s = Str.lstrip s.
Proof.
  induction s as [|c s IH]; [done|]. cbn.
  destruct (Str.isspace_char c); [|done].
  pose proof (whitespace_end_bounds s).
  replace (Z.to_nat (1 + Str.whitespace_end s))
    with (S (Z.to_nat (Str.whitespace_end s))) by lia.
  done.
Qed.

Lemma drop_drop n k s : Str.drop k (Str.drop n s) = Str.drop (n + k) s.
Proof.
  revert s. induction n as [|n IH]; intros s; [done|].
  destruct s as [|c s]; cbn; [by destruct k|]. apply IH.
Qed.

Lemma len_drop n s :
  (n <= String.length s)%nat -> Str.len (Str.drop n s) = Str.len s - Z.of_nat n.
Proof.
  unfold Str.len. revert s. induction n as [|n IH]; intros s Hn; cbn; [lia|].
  destruct s as [|c s]; cbn in *; [lia|]. rewrite IH; lia.
Qed.

Lemma slice_from_nonneg s i : 0 <= i -> Str.slice_from s i = Str.drop (Z.to_nat i) s.
Proof. intros Hi. unfold Str.slice_from. by destruct (Z.ltb_spec i 0); [lia|]. Qed.

Lemma len_slice_from s i :
  0 <= i <= Str.len s -> Str.len (Str.slice_from s i) = Str.len s - i.
Proof.
  intros Hi. rewrite slice_from_nonneg by lia.
  unfold Str.len in Hi. rewrite len_drop; lia.
Qed.

(** The slice taken after the whitespace match is the slice before it with
    its leading whitespace removed. *)
Lemma slice_after_whitespace s i :
  0 <= i ->
  Str.slice_from s (i + Str.whitespace_end (Str.slice_from s i))
  = Str.lstrip (Str.slice_from s i).
Proof.
  intros Hi. pose proof (whitespace_end_bounds (Str.slice_from s i)).
  rewrite (slice_from_nonneg s (i + _)) by lia.
  rewrite <- drop_whitespace, (slice_from_nonneg s i Hi), drop_drop.
  f_equal. rewrite <- (slice_from_nonneg s i Hi). lia.
Qed.

Lemma lstrip_head s :
  Str.lstrip s = EmptyString \/
  exists c rest, Str.lstrip s = String c rest /\ Str.isspace_char c = false.
Proof.
  induction s as [|c s IH]; cbn; [by left|].
  destruct (Str.isspace_char c) eqn:E; [done|]. right. by exists c, s.
Qed.

Lemma len_empty s : Str.len s = 0 -> s = EmptyString.
Proof. by destruct s. Qed.

(** The cursor after the whitespace match stays on the line; when it is
    not at the end of the line, it is on a character that is not
    whitespace. *)
Lemma stripped_cursor s i :
  0 <= i <= Str.len s ->
  let i1 := i + Str.whitespace_end (Str.slice_from s i) in
  i <= i1 <= Str.len s /\
  (i1 <> Str.len s ->
   exists c rest, Str.slice_from s i1 = String c rest /\
                  Str.isspace_char c = false).
Proof.
  intros Hi i1. pose proof (whitespace_end_bounds (Str.slice_from s i)) as Hw.
  rewrite len_slice_from in Hw by done.
  split; [unfold i1; lia|]. intros Hne.
  unfold i1. rewrite slice_after_whitespace by lia.
  destruct (lstrip_head (Str.slice_from s i)) as [E|H]; [|done].
  exfalso. apply Hne.
  assert (Str.len (Str.slice_from s i1) = 0) as Hlen.
  { unfold i1. rewrite slice_after_whitespace by lia. by rewrite E. }
  rewrite len_slice_from in Hlen by (unfold i1; lia). lia.
Qed.

End slice_facts.

(** ** Further properties: invariants of a scan *)

Section scan_invariants.

Import Tokenizer.

Lemma loop_body_Continue_cursor st self ln line pos out st' pos' out' :
  loop_body st self ln line pos out = Continue st' pos' out' ->
  pos + Str.whitespace_end (Str.slice_from line pos) <> Str.len line.
Proof.
  unfold loop_body. cbn zeta.
  destruct (Z.eqb_spec (pos + Str.whitespace_end (Str.slice_from line pos))
                       (Str.len line)); done.
Qed.


Variables (st0 : store) (self : loc) (lines : list string).

(** The cursor is on a line of the input and never negative. *)
Lemma visits_cursor n line st pos out :
  visits st0 self lines n line st pos out ->
  lines !! n = Some line /\ 0 <= pos.
Proof.
  induction 1 as [line Hl | n line st pos out st' pos' out' Hv [IHl IHp] Hc Hb
                 | n line st pos out line' Hv IH Hd Hl]; try done.
  split; [done|].
  apply loop_body_Continue in Hb
    as (items & i & m & m' & u & w & _ & _ & _ & Hm & _ & -> & _).
  pose proof (match_width_sign m (Str.slice_from line
    (pos + Str.whitespace_end (Str.slice_from line pos)))) as Hw.
  rewrite Hm in Hw. cbn in Hw.
  pose proof (whitespace_end_bounds (Str.slice_from line pos)). lia.
Qed.

(** Every token built so far starts on text. *)
Lemma visits_starts_on_text n line st pos out :
  visits st0 self lines n line st pos out ->
  Forall (starts_on_text lines) out.
Proof.
  induction 1 as [line Hl | n line st pos out st' pos' out' Hv IH Hc Hb
                 | n line st pos out line' Hv IH Hd Hl]; try done.
  destruct (visits_cursor _ _ _ _ _ Hv) as [Hl Hpos].
  pose proof (loop_body_Continue_cursor _ _ _ _ _ _ _ _ _ Hb) as Hne.
  apply loop_body_Continue in Hb
    as (items & i & m & m' & u & w & _ & _ & _ & _ & _ & _ & ->).
  apply Forall_app. split; [done|]. apply Forall_singleton.
  apply Z.ltb_lt in Hc.
  destruct (stripped_cursor line pos) as [Hb1 Hb2]; [lia|].
  destruct (Hb2 Hne) as (c & rest & Hs & Hc').
  exists n, line, c, rest. cbn. repeat split; try done; lia.
Qed.

(** The tokens built so far lie before the cursor, and in source order. *)
Lemma visits_in_order n line st pos out :
  visits st0 self lines n line st pos out ->
  Forall (fun t =>
            line_number (Token_line_info t) < Z.of_nat n \/
            (line_number (Token_line_info t) = Z.of_nat n /\
             exists e, line_end (Token_line_info t) = Some e /\ e <= pos)) out /\
  (forall i j t1 t2, (i < j)%nat ->
     out !! i = Some t1 -> out !! j = Some t2 -> precedes t1 t2).
Proof.
  induction 1 as [line Hl | n line st pos out st' pos' out' Hv [IH1 IH2] Hc Hb
                 | n line st pos out line' Hv [IH1 IH2] Hd Hl].
  - split; [done|]. intros i j t1 t2 _ H. done.
  - apply loop_body_Continue in Hb
      as (items & i0 & m & m' & u & w & _ & _ & _ & Hm & _ & -> & ->).
    pose proof (match_width_sign m (Str.slice_from line
      (pos + Str.whitespace_end (Str.slice_from line pos)))) as Hw.
    rewrite Hm in Hw. cbn in Hw.
    pose proof (whitespace_end_bounds (Str.slice_from line pos)) as Hws.
    split.
    + apply Forall_app. split.
      * eapply Forall_impl; [exact IH1|]. cbn.
        intros t [Hlt|[Heq (e & He & Hle)]]; [by left|right].
        split; [done|]. exists e. split; [done|]. lia.
      * apply Forall_singleton. right. cbn. split; [done|]. eexists. split; [done|]. lia.
    + intros i j t1 t2 Hij H1 H2.
      destruct (decide (j < length out)%nat) as [Hj|Hj].
      * rewrite lookup_app_l in H1, H2 by lia. exact (IH2 i j t1 t2 Hij H1 H2).
      * rewrite lookup_app_r in H2 by lia.
        apply list_lookup_singleton_Some in H2 as [Ej <-].
        assert (i < length out)%nat as Hi by lia.
        rewrite lookup_app_l in H1 by done.
        rewrite Forall_forall in IH1.
        destruct (IH1 t1) as [Hlt|[Heq (e & He & Hle)]].
        { eapply list_elem_of_lookup_2. exact H1. }
        { left. done. }
        { right. cbn. split; [done|]. exists e. split; [done|]. lia. }
  - split; [|done]. eapply Forall_impl; [exact IH1|]. cbn.
    intros t [Hlt|[Heq _]]; left; lia.
Qed.

Lemma same_configuration_refl st : same_configuration st st.
Proof.
  repeat split. intros l. destruct (heap st !! l) as [o|]; [|done].
  exists o. split; [done|]. apply same_object_refl.
Qed.

Lemma same_configuration_trans st1 st2 st3 :
  same_configuration st1 st2 -> same_configuration st2 st3 ->
  same_configuration st1 st3.
Proof.
  intros (Hn & Hc & H) (Hn' & Hc' & H'). repeat split; [congruence..|].
  intros l. specialize (H l). specialize (H' l).
  destruct (heap st1 !! l) as [o1|].
  - destruct H as (o2 & E2 & Ho). rewrite E2 in H'.
    destruct H' as (o3 & E3 & Ho'). exists o3. split; [done|].
    by eapply same_object_trans.
  - by rewrite H in H'.
Qed.

(** The store changes at matcher objects only, and there at the inside
    flag only. *)
Lemma visits_same_configuration n line st pos out :
  visits st0 self lines n line st pos out -> same_configuration st0 st.
Proof.
  induction 1 as [line Hl | n line st pos out st' pos' out' Hv IH Hc Hb
                 | n line st pos out line' Hv IH Hd Hl]; try done.
  - apply same_configuration_refl.
  - apply (same_configuration_trans _ _ _ IH).
    apply loop_body_Continue in Hb
      as (items & i & m & m' & u & w & _ & _ & Hi & Hm & -> & _ & _).
    repeat split. intros l. cbn.
    destruct (decide (l = i)) as [->|Hne].
    + rewrite Hi, lookup_insert_eq. eexists. split; [done|].
      pose proof (same_object_call m (Str.slice_from line
        (pos + Str.whitespace_end (Str.slice_from line pos)))) as Hs.
      by rewrite Hm in Hs.
    + rewrite lookup_insert_ne by done.
      destruct (heap st !! l) as [o|]; [|done].
      exists o. split; [done|]. apply same_object_refl.
Qed.

(** A comment matcher that was outside every comment when the scan began
    is inside one only after a token of its start-marker kind was built. *)
Lemma visits_opener c cm0 n line st pos out :
  heap st0 !! c = Some (OMatcher (ACommentMatcher cm0)) ->
  CommentMatcher.is_multiline cm0 = false ->
  visits st0 self lines n line st pos out ->
  exists b,
    heap st !! c
      = Some (OMatcher (ACommentMatcher (CommentMatcher.set_is_multiline cm0 b))) /\
    (b = true ->
     exists tok, tok ∈ out /\
       token_id (Token_token tok) = Symbol_token (CommentMatcher.ml_start cm0)).
Proof.
  intros Hc0 Hout.
  induction 1 as [line Hl | n line st pos out st' pos' out' Hv IH Hc Hb
                 | n line st pos out line' Hv IH Hd Hl]; try done.
  - exists false. split; [|done]. rewrite Hc0. by destruct cm0 as [[] ? ? ?].
  - destruct IH as (b & Hst & Htok).
    apply loop_body_Continue in Hb
      as (items & i & m & m' & u & w & _ & _ & Hi & Hm & -> & _ & ->).
    cbn. destruct (decide (i = c)) as [->|Hne].
    + rewrite lookup_insert_eq. rewrite Hst in Hi. injection Hi as <-.
      apply match_token_evolution in Hm as (b' & -> & Hflip).
      exists b'. split; [done|]. intros ->.
      destruct b.
      * destruct (Htok eq_refl) as (tok & Hin & Hk).
        exists tok. split; [|done]. apply elem_of_app. by left.
      * destruct (Hflip eq_refl eq_refl) as (w' & [= -> _]).
        eexists. split; [apply elem_of_app; right; by left|]. done.
    + rewrite lookup_insert_ne by done. exists b. split; [done|].
      intros Hb'. destruct (Htok Hb') as (tok & Hin & Hk).
      exists tok. split; [|done]. apply elem_of_app. by left.
Qed.

End scan_invariants.

Lemma same_configuration_registry st st' tk :
  same_configuration st st' -> Tokenizer.registry st' tk = Tokenizer.registry st tk.
Proof.
  intros (_ & Hc & H).
  assert (forall l o, heap st !! l = Some o ->
            (forall m, o <> OMatcher m) -> heap st' !! l = Some o) as Hsame.
  { intros l o Hl Hno. specialize (H l). rewrite Hl in H.
    destruct H as (o' & -> & Ho). destruct o as [|[|]| |]; cbn in Ho; try by subst.
    by destruct (Hno (ACommentMatcher m)). }
  assert (forall l, (forall o, heap st !! l = Some o -> exists m, o = OMatcher m) ->
            forall o', heap st' !! l = Some o' -> exists m', o' = OMatcher m') as Hm.
  { intros l Hl o' Hl'. specialize (H l).
    destruct (heap st !! l) as [o|] eqn:E; [|congruence].
    destruct H as (o2 & E2 & Ho). destruct (Hl o eq_refl) as [m ->].
    rewrite Hl' in E2. injection E2 as <-.
    destruct m; cbn in Ho; [by eexists|]. destruct Ho as [b ->]. by eexists. }
  unfold Tokenizer.registry, Tokenizer.tokenizer, FloatingTokenizer.matchers.
  rewrite Hc.
  assert (forall l, match heap st !! l with
                    | Some (OMatcher _) =>
                        exists m', heap st' !! l = Some (OMatcher m')
                    | o => heap st' !! l = o
                    end) as Hcase.
  { intros l. specialize (H l). destruct (heap st !! l) as [o|]; [|done].
    destruct H as (o' & -> & Ho).
    destruct o as [|[|]| |]; cbn in Ho; subst; try done; [by eexists|].
    destruct Ho as [b ->]. by eexists. }
  pose proof (Hcase tk) as Htk.
  destruct (heap st !! tk) as [[| | |ft]|]; try (by rewrite Htk);
    [by destruct Htk as [m' ->]|].
  rewrite Htk. cbn. pose proof (Hcase ft) as Hft.
  destruct (heap st !! ft) as [[| | |]|]; try (by rewrite Hft);
    [by destruct Hft as [m' ->]|].
  rewrite Hft. cbn. pose proof (Hcase (class_matchers st)) as Hl.
  destruct (heap st !! class_matchers st) as [[| | |]|]; try (by rewrite Hl).
  by destruct Hl as [m' ->].
Qed.

(** X2: every token of a successful scan starts on a character of its
    line that is not whitespace: its line number is that of a line of the
    input, and its start offset is inside that line. *)
Theorem tokens_start_on_text
    (fuel : nat) (st0 : store) (self : loc) (stream : string)
    (st' : store) (output : list Token) :
  Tokenizer.match_tokens fuel st0 self stream = Return (st', output) ->
  Forall (starts_on_text (Str.splitlines stream)) output.
Proof.
  intros H. apply match_tokens_visits in H as [(_ & _ & ->)|(n & line & pos & Hv)];
    [done|]. by eapply visits_starts_on_text.
Qed.

Lemma tokens_start_on_text_witness :
  exists st' output,
    Tokenizer.match_tokens 10 demo_store demo_tokenizer " ; /* x" = Return (st', output) /\
    Forall (starts_on_text (Str.splitlines " ; /* x")) output.
Proof.
  eexists. eexists. split.
  - vm_compute. reflexivity.
  - eapply (tokens_start_on_text 10 demo_store demo_tokenizer " ; /* x").
    vm_compute. reflexivity.
Defined.

(** X3: the tokens of a successful scan are in source order and do not
    overlap: of two tokens, the earlier one in the list is on an earlier
    line, or on the same line and ends no later than the other starts. *)
Theorem tokens_in_source_order
    (fuel : nat) (st0 : store) (self : loc) (stream : string)
    (st' : store) (output : list Token) :
  Tokenizer.match_tokens fuel st0 self stream = Return (st', output) ->
  forall i j t1 t2, (i < j)%nat ->
    output !! i = Some t1 -> output !! j = Some t2 -> precedes t1 t2.
Proof.
  intros H. apply match_tokens_visits in H as [(_ & _ & ->)|(n & line & pos & Hv)].
  - intros i j t1 t2 _ H. done.
  - by apply (visits_in_order _ _ _ _ _ _ _ _ Hv).
Qed.

Lemma tokens_in_source_order_witness :
  exists st' output t1 t2,
    Tokenizer.match_tokens 10 demo_store demo_tokenizer ("; // x" +:+ NL +:+ ";")
      = Return (st', output) /\
    output !! 1%nat = Some t1 /\ output !! 2%nat = Some t2 /\ precedes t1 t2.
Proof.
  eexists. eexists. eexists. eexists.
  assert (forall A B C D : Prop, A -> B -> C -> (A -> B -> C -> D) -> A /\ B /\ C /\ D)
    as Hand by tauto.
  apply Hand.
  - vm_compute. reflexivity.
  - vm_compute. reflexivity.
  - vm_compute. reflexivity.
  - intros H H1 H2.
    apply (tokens_in_source_order _ _ _ _ _ _ H 1%nat 2%nat); [lia|done..].
Defined.

(** X4: a scan that returns leaves the store as it was up to the inside
    flags of comment matchers: no object is added or removed, symbol
    matchers and lists are unchanged, and every tokenizer has the registry
    it had. *)
Theorem scan_keeps_configuration
    (fuel : nat) (st0 : store) (self : loc) (stream : string)
    (st' : store) (output : list Token) :
  Tokenizer.match_tokens fuel st0 self stream = Return (st', output) ->
  same_configuration st0 st' /\
  forall tk, Tokenizer.registry st' tk = Tokenizer.registry st0 tk.
Proof.
  intros H.
  assert (same_configuration st0 st') as Hs.
  { apply match_tokens_visits in H as [(_ & -> & _)|(n & line & pos & Hv)].
    - apply same_configuration_refl.
    - by eapply visits_same_configuration. }
  split; [done|]. intros tk. by apply same_configuration_registry.
Qed.

Lemma scan_keeps_configuration_witness :
  exists st' output,
    Tokenizer.match_tokens 10 demo_store demo_tokenizer "; /* x" = Return (st', output) /\
    same_configuration demo_store st' /\
    forall tk, Tokenizer.registry st' tk = Tokenizer.registry demo_store tk.
Proof.
  eexists. eexists. split.
  - vm_compute. reflexivity.
  - eapply (scan_keeps_configuration 10 demo_store demo_tokenizer "; /* x").
    vm_compute. reflexivity.
Defined.

(** X5: when a comment matcher that was outside every comment before the
    scan is inside one after it, the returned tokens hold a token of its
    start-marker kind, so [end_matching] on them raises the
    unterminated-construct failure (for a token of that kind in the
    list). *)
Theorem unterminated_comment_has_opener
    (fuel : nat) (st0 : store) (self : loc) (stream : string)
    (st' : store) (output : list Token) (c : loc) (cm0 cm' : CommentMatcher.t) :
  Tokenizer.match_tokens fuel st0 self stream = Return (st', output) ->
  heap st0 !! c = Some (OMatcher (ACommentMatcher cm0)) ->
  CommentMatcher.is_multiline cm0 = false ->
  heap st' !! c = Some (OMatcher (ACommentMatcher cm')) ->
  CommentMatcher.is_multiline cm' = true ->
  cm' = CommentMatcher.set_is_multiline cm0 true /\
  exists tok, tok ∈ output /\
    token_id (Token_token tok) = Symbol_token (CommentMatcher.ml_start cm0) /\
    CommentMatcher.end_matching cm' output
      = Raise (NoEndException (line_number (Token_line_info tok))
                              (line_start (Token_line_info tok))).
Proof.
  intros H Hc0 Hout Hc' Hin.
  apply match_tokens_visits in H as [(_ & -> & _)|(n & line & pos & Hv)].
  { rewrite Hc0 in Hc'. injection Hc' as <-. congruence. }
  destruct (visits_opener _ _ _ _ _ _ _ _ _ _ Hc0 Hout Hv) as (b & Hst & Htok).
  rewrite Hc' in Hst. injection Hst as ->.
  destruct b; [|done]. split; [done|].
  destruct (Htok eq_refl) as (tok0 & Hin0 & Hk0).
  unfold CommentMatcher.end_matching. cbn.
  destruct (List.find _ (rev output)) as [tok|] eqn:E.
  - apply find_kind_Some in E as [Hin1 Hk]. exists tok.
    split; [by apply elem_of_rev|]. done.
  - exfalso. rewrite find_kind_None in E. apply (E tok0); [|done].
    by apply elem_of_rev.
Qed.

Lemma unterminated_comment_has_opener_witness :
  exists st' output tok,
    Tokenizer.match_tokens 10 demo_store demo_tokenizer "; /* x" = Return (st', output) /\
    tok ∈ output /\
    CommentMatcher.end_matching (CommentMatcher.set_is_multiline comm_match true) output
      = Raise (NoEndException (line_number (Token_line_info tok))
                              (line_start (Token_line_info tok))).
Proof.
  destruct (Tokenizer.match_tokens 10 demo_store demo_tokenizer "; /* x")
    as [[st' output]| | |] eqn:E; try (vm_compute in E; discriminate E).
  destruct (unterminated_comment_has_opener 10 demo_store demo_tokenizer "; /* x"
              st' output 1%nat comm_match
              (CommentMatcher.set_is_multiline comm_match true) E)
    as (_ & tok & Hin & _ & Hend).
  - by vm_compute.
  - reflexivity.
  - vm_compute in E. injection E as <- _. by vm_compute.
  - reflexivity.
  - by exists st', output, tok.
Defined.



(** ** Further properties: the dispatcher and the matchers *)

(** X7: the dispatcher answers with the match of the first matcher, in
    registration order, that matches; only that matcher's object is written,
    so no later matcher is called; it answers "no match", with width -1 and
    the store untouched, only when every registered matcher declines. *)
Theorem dispatcher_first_match
    (st : store) (ft : loc) (stream : string)
    (st' : store) (r : option FloatingToken * Z) :
  FloatingTokenizer.match_token st ft stream = Some (st', r) ->
  exists items,
    heap st !! class_matchers st = Some (OList items) /\
    match r with
    | (Some unit, width) =>
        exists pre i post m m',
          items = pre ++ i :: post /\
          Forall (declines (heap st) stream) pre /\
          heap st !! i = Some (OMatcher m) /\
          TokenMatcher_match_token m stream = (m', (Some unit, width)) /\
          st' = set_heap st (<[i := OMatcher m']> (heap st))
    | (None, width) =>
        width = -1 /\ st' = st /\ Forall (declines (heap st) stream) items
    end.
Proof.
  unfold FloatingTokenizer.match_token, FloatingTokenizer.matchers.
  destruct (heap st !! ft) as [[| | |]|]; try done. cbn.
  destruct (heap st !! class_matchers st) as [[items| | |]|]; try done.
  destruct (FloatingTokenizer.try_matchers _ _ _) as [[h' r']|] eqn:E; [|done].
  cbn. intros [= <- <-]. exists items. split; [done|].
  apply try_matchers_spec in E. destruct r' as [[u|] w].
  - destruct E as (pre & i & post & m & m' & -> & Hpre & Hi & Hm & ->).
    by exists pre, i, post, m, m'.
  - destruct E as (-> & -> & Hall). by rewrite set_heap_same.
Qed.

Lemma dispatcher_first_match_witness :
  exists items,
    heap demo_store !! class_matchers demo_store = Some (OList items) /\
    exists pre i post m m',
      items = pre ++ i :: post /\
      Forall (declines (heap demo_store) ";") pre /\
      heap demo_store !! i = Some (OMatcher m) /\
      TokenMatcher_match_token m ";"
        = (m', (Some (mkFloatingToken "SYMB_SEMICOLON" (Some ";")), 1)) /\
      demo_store = set_heap demo_store (<[i := OMatcher m']> (heap demo_store)).
Proof.
  apply (dispatcher_first_match demo_store 3%nat ";" demo_store
           (Some (mkFloatingToken "SYMB_SEMICOLON" (Some ";")), 1)).
  by vm_compute.
Defined.

(** X8: [add_matcher] through any tokenizer appends the matcher to the
    registry of every tokenizer of the store, its own included, whether or
    not the matcher is registered already; no other object is touched. *)
Theorem add_matcher_appends_for_every_tokenizer
    (st : store) (a matcher : loc) (st' : store) :
  Tokenizer.add_matcher st a matcher = Some st' ->
  (forall b items,
     Tokenizer.registry st b = Some items ->
     Tokenizer.registry st' b = Some (items ++ [matcher])) /\
  (forall l, l <> class_matchers st -> heap st' !! l = heap st !! l) /\
  class_matchers st' = class_matchers st /\ next_loc st' = next_loc st.
Proof.
  intros H.
  split; [intros b items; exact (add_matcher_shared st a b matcher st' items H)|].
  unfold Tokenizer.add_matcher, FloatingTokenizer.add_matcher,
    FloatingTokenizer.matchers in H.
  destruct (Tokenizer.tokenizer st a) as [ft|]; [|done]. cbn in H.
  destruct (heap st !! ft) as [[| | |]|]; try done. cbn in H.
  destruct (heap st !! class_matchers st) as [[items| | |]|]; try done.
  injection H as <-. cbn. split; [|done].
  intros l Hl. by rewrite lookup_insert_ne.
Qed.

Lemma add_matcher_appends_for_every_tokenizer_witness :
  exists st',
    Tokenizer.add_matcher (fst (Tokenizer.new demo_store)) demo_tokenizer 2%nat
      = Some st' /\
    Tokenizer.registry st' (snd (Tokenizer.new demo_store))
      = Some ([1%nat; 2%nat] ++ [2%nat]).
Proof.
  eexists. split; [by vm_compute|].
  eapply (proj1 (add_matcher_appends_for_every_tokenizer
                   (fst (Tokenizer.new demo_store)) demo_tokenizer 2%nat _ _)).
  by vm_compute.
  Unshelve. by vm_compute.
Defined.

Section symbol_priority.

Implicit Types (l : list Symbol) (stream : string).

Lemma match_symbols_app l1 l2 stream :
  SymbolMatcher.match_symbols (l1 ++ l2) stream =
    match SymbolMatcher.match_symbols l1 stream with
    | (Some unit, width) => (Some unit, width)
    | (None, _) => SymbolMatcher.match_symbols l2 stream
    end.
Proof.
  induction l1 as [|sym l1 IH]; [done|]. cbn.
  by destruct (Str.startswith stream (Symbol_symbol sym)).
Qed.

Lemma is_prefix_trans p q s : is_prefix p q -> is_prefix q s -> is_prefix p s.
Proof. intros [t ->] [u ->]. exists (t +:+ u). by rewrite app_assoc_str. Qed.

End symbol_priority.

(** X9: symbols added later never take a stream from the symbols already
    there: after [add_symbol] or [add_symbols] a stream that matched before
    gets the same answer, and only a stream that did not match is tried
    against the new symbols. *)
Theorem added_symbols_have_lower_priority
    (self : SymbolMatcher.t) (stream : string) :
  (forall symbol token,
     SymbolMatcher.match_token (SymbolMatcher.add_symbol self symbol token) stream =
       match SymbolMatcher.match_token self stream with
       | (Some unit, width) => (Some unit, width)
       | (None, _) =>
           if Str.startswith stream symbol
           then (Some (mkFloatingToken token (Some symbol)), Str.len symbol)
           else (None, -1)
       end) /\
  (forall l,
     SymbolMatcher.match_token (SymbolMatcher.add_symbols self l) stream =
       match SymbolMatcher.match_token self stream with
       | (Some unit, width) => (Some unit, width)
       | (None, _) => SymbolMatcher.match_token (SymbolMatcher.mk l) stream
       end).
Proof.
  unfold SymbolMatcher.match_token, SymbolMatcher.add_symbol,
    SymbolMatcher.add_symbols. cbn.
  split; intros; by rewrite match_symbols_app.
Qed.

(** X10: a literal registered behind one of its own proper prefixes is never
    returned: when [first] stands before every symbol with the literal
    [lit] and the literal of [first] is a prefix of [lit] other than [lit],
    no stream is matched as [lit]. *)
Theorem shadowed_literal_never_matches
    (pre post : list Symbol) (first : Symbol) (lit : string) (stream : string) :
  Forall (fun s => Symbol_symbol s <> lit) pre ->
  is_prefix (Symbol_symbol first) lit ->
  Symbol_symbol first <> lit ->
  forall unit width,
    SymbolMatcher.match_token (SymbolMatcher.mk (pre ++ first :: post)) stream
      = (Some unit, width) ->
    value unit <> Some lit.
Proof.
  intros Hpre Hpfx Hne unit width. unfold SymbolMatcher.match_token. cbn.
  induction Hpre as [|s pre Hs _ IH]; cbn.
  - destruct (Str.startswith stream (Symbol_symbol first)) eqn:E.
    + intros [= <- _]. cbn. congruence.
    + apply startswith_false in E. intros Hm.
      pose proof (match_symbols_first post stream) as H. rewrite Hm in H.
      destruct H as (_ & sym & _ & _ & _ & Hsym & -> & _). cbn.
      intros [= Heq]. apply E. apply (is_prefix_trans _ lit); [done|].
      by rewrite <- Heq.
  - destruct (Str.startswith stream (Symbol_symbol s)); [|done].
    intros [= <- _]. cbn. congruence.
Qed.

Lemma shadowed_literal_never_matches_witness :
  SymbolMatcher.match_token
    (SymbolMatcher.mk ([mkSymbol ";" "SEMI"]
                       ++ mkSymbol "!" "NOT" :: [mkSymbol "!=" "NEQ"])) "!= x"
    = (Some (mkFloatingToken "NOT" (Some "!")), 1) /\
  value (mkFloatingToken "NOT" (Some "!")) <> Some "!=".
Proof.
  split; [by vm_compute|].
  apply (shadowed_literal_never_matches [mkSymbol ";" "SEMI"] [mkSymbol "!=" "NEQ"]
           (mkSymbol "!" "NOT") "!=" "!= x") with (width := 1).
  - repeat constructor. by vm_compute.
  - by exists "=".
  - by vm_compute.
  - by vm_compute.
Defined.

(** X11: the comment matcher declines exactly when it is outside every
    comment and the stream starts with neither the single-line marker nor
    the start marker, and it is then left as it was; inside a comment it
    matches whatever the stream is. *)
Theorem comment_matcher_declines_iff (self : CommentMatcher.t) (stream : string) :
  (fst (snd (CommentMatcher.match_token self stream)) = None <->
   CommentMatcher.is_multiline self = false /\
   ~ is_prefix (Symbol_symbol (CommentMatcher.comment self)) stream /\
   ~ is_prefix (Symbol_symbol (CommentMatcher.ml_start self)) stream) /\
  (fst (snd (CommentMatcher.match_token self stream)) = None ->
   CommentMatcher.match_token self stream = (self, (None, -1))).
Proof.
  unfold CommentMatcher.match_token.
  destruct (CommentMatcher.is_multiline self).
  { destruct (Str.find _ _); cbn; (split; [split; [done|by intros [? _]]|done]). }
  destruct (Str.startswith stream (Symbol_symbol (CommentMatcher.comment self)))
    eqn:E1.
  { apply startswith_spec in E1. cbn. split; [|done]. split; [done|].
    by intros (_ & H & _). }
  apply startswith_false in E1.
  destruct (Str.startswith stream (Symbol_symbol (CommentMatcher.ml_start self)))
    eqn:E2.
  { apply startswith_spec in E2. cbn. split; [|done]. split; [done|].
    by intros (_ & _ & H). }
  apply startswith_false in E2. cbn. by repeat split.
Qed.

Lemma comment_matcher_declines_iff_witness :
  CommentMatcher.match_token comm_match "; x" = (comm_match, (None, -1)).
Proof.
  apply (proj2 (comment_matcher_declines_iff comm_match "; x")).
  by vm_compute.
Defined.

Section last_opener.

Lemma find_first_hit (f : Token -> bool) (l1 l2 : list Token) (x : Token) :
  Forall (fun t => f t = false) l1 -> f x = true ->
  List.find f (l1 ++ x :: l2) = Some x.
Proof.
  induction 1 as [|t l1 Ht _ IH]; intros Hx; cbn; [by rewrite Hx|].
  rewrite Ht. by apply IH.
Qed.

End last_opener.

(** X12: with the inside flag set, [end_matching] reports the most recent
    opener: the last token of the start-marker kind in the list gives the
    line and the offset of the failure. *)
Theorem end_matching_reports_last_opener
    (self : CommentMatcher.t) (pre post : list Token) (tok : Token) :
  CommentMatcher.is_multiline self = true ->
  token_id (Token_token tok) = Symbol_token (CommentMatcher.ml_start self) ->
  Forall (fun t => token_id (Token_token t)
                   <> Symbol_token (CommentMatcher.ml_start self)) post ->
  CommentMatcher.end_matching self (pre ++ tok :: post)
    = Raise (NoEndException (line_number (Token_line_info tok))
                            (line_start (Token_line_info tok))).
Proof.
  intros Hin Hk Hpost. unfold CommentMatcher.end_matching. rewrite Hin.
  rewrite rev_app_distr. cbn [rev]. rewrite <- app_assoc. cbn [app].
  rewrite find_first_hit; [done| |by apply String.eqb_eq].
  apply Forall_forall. intros t Ht. apply String.eqb_neq.
  rewrite Forall_forall in Hpost. apply Hpost.
  apply list_elem_of_In. apply in_rev. by apply list_elem_of_In.
Qed.

Lemma end_matching_reports_last_opener_witness :
  CommentMatcher.end_matching (CommentMatcher.set_is_multiline comm_match true)
    ([mkToken (mkFloatingToken "MULTILINE_START" None) (mkLineInfo 0 0 (Some 15));
      mkToken (mkFloatingToken "MULTILINE_END" None) (mkLineInfo 1 0 (Some 4))]
     ++ mkToken (mkFloatingToken "MULTILINE_START" None) (mkLineInfo 2 0 (Some 15))
        :: [mkToken (mkFloatingToken "MULTILINE_END" None) (mkLineInfo 3 0 (Some 4))])
  = Raise (NoEndException 2 0).
Proof.
  apply (end_matching_reports_last_opener
           (CommentMatcher.set_is_multiline comm_match true)).
  - reflexivity.
  - reflexivity.
  - repeat constructor. by vm_compute.
Defined.

(** ** Further properties: blank input, termination and divergence *)

Section blank_input.

Import Tokenizer.

Lemma whitespace_end_all_space s :
  Str.all_space s = true -> Str.whitespace_end s = Str.len s.
Proof.
  unfold Str.len. induction s as [|c s IH]; [done|]. cbn.
  intros [-> Hs]%andb_true_iff. rewrite (IH Hs). lia.
Qed.

Lemma whitespace_end_not_all_space s :
  Str.all_space s = false -> Str.whitespace_end s <> Str.len s.
Proof.
  unfold Str.len. induction s as [|c s IH]; [done|]. cbn.
  destruct (Str.isspace_char c); cbn; [|lia].
  intros Hs. specialize (IH Hs). lia.
Qed.

Lemma segments_all_space s :
  Str.all_space s = true ->
  Forall (fun l => Str.all_space l = true) (Str.segments s).
Proof.
  induction s as [|c s IH]; cbn; [by repeat constructor|].
  intros [Hc Hs]%andb_true_iff. specialize (IH Hs).
  destruct (Str.is_linebreak c).
  - destruct (_ && _); [done|by constructor].
  - destruct (Str.segments s) as [|p ps]; [by repeat constructor; cbn; rewrite Hc|].
    inversion IH; subst. constructor; [|done]. cbn. by rewrite Hc.
Qed.

Lemma Forall_removelast {A} (P : A -> Prop) (l : list A) :
  Forall P l -> Forall P (removelast l).
Proof.
  induction 1 as [|x l Hx Hl IH]; [done|]. cbn.
  destruct l; [done|]. by constructor.
Qed.

Lemma splitlines_all_space s :
  Str.all_space s = true ->
  Forall (fun l => Str.all_space l = true) (Str.splitlines s).
Proof.
  intros H. apply segments_all_space in H. unfold Str.splitlines.
  destruct (last (Str.segments s)) as [[|]|]; try done.
  by apply Forall_removelast.
Qed.

Lemma slice_from_0 s : Str.slice_from s 0 = s.
Proof. done. Qed.

Lemma while_loop_blank fuel st self ln line out :
  Str.all_space line = true ->
  while_loop (S fuel) st self ln line 0 out = Return (st, out).
Proof.
  intros H. cbn [while_loop]. destruct (0 <? Str.len line); [|done].
  unfold loop_body. cbn zeta.
  rewrite slice_from_0, (whitespace_end_all_space _ H), Z.add_0_l.
  by rewrite Z.eqb_refl.
Qed.

Lemma for_lines_blank fuel st self lines :
  Forall (fun l => Str.all_space l = true) lines ->
  forall ln out, for_lines (S fuel) st self ln lines out = Return (st, out).
Proof.
  induction 1 as [|line lines Hl _ IH]; intros ln out; [done|].
  cbn [for_lines]. by rewrite (while_loop_blank _ _ _ _ _ _ Hl).
Qed.

End blank_input.

(** X13: an input of whitespace only (blank lines, spaces, tabs, also the
    empty input) gives the empty token list, whatever is registered, and
    leaves the store untouched: no matcher is called. *)
Theorem blank_input_gives_no_token
    (fuel : nat) (st : store) (self : loc) (stream : string) :
  Str.all_space stream = true ->
  Tokenizer.match_tokens (S fuel) st self stream = Return (st, []).
Proof.
  intros H. unfold Tokenizer.match_tokens.
  apply for_lines_blank. by apply splitlines_all_space.
Qed.

Lemma blank_input_gives_no_token_witness :
  Tokenizer.match_tokens 1 demo_store demo_tokenizer ("  " +:+ NL +:+ NL +:+ TAB)
  = Return (demo_store, []).
Proof.
  apply (blank_input_gives_no_token O demo_store demo_tokenizer). by vm_compute.
Defined.

Section termination.

Import Tokenizer.





End termination.



Section dispatch_at.

Import Tokenizer.

Lemma try_matchers_skip_declined h pre rest stream :
  Forall (declines h stream) pre ->
  FloatingTokenizer.try_matchers h (pre ++ rest) stream
  = FloatingTokenizer.try_matchers h rest stream.
Proof.
  induction 1 as [|i pre (m & Hi & Hm) _ IH]; [done|].
  cbn [app FloatingTokenizer.try_matchers].
  rewrite Hi. pose proof (TokenMatcher_None_same m stream Hm) as Hsame.
  destruct (TokenMatcher_match_token m stream) as [m' [mt w]]; cbn in *.
  subst. by rewrite insert_id.
Qed.

(** The dispatcher's answer when the matchers registered before [c]
    decline and the matcher at [c] matches. *)
Lemma dispatch_at st self pre c post stream m m' u w :
  registry st self = Some (pre ++ c :: post) ->
  Forall (declines (heap st) stream) pre ->
  heap st !! c = Some (OMatcher m) ->
  TokenMatcher_match_token m stream = (m', (Some u, w)) ->
  (ft ← tokenizer st self; FloatingTokenizer.match_token st ft stream)
  = Some (set_heap st (<[c := OMatcher m']> (heap st)), (Some u, w)).
Proof.
  unfold registry, FloatingTokenizer.match_token. intros Hreg Hpre Hc Hm.
  destruct (tokenizer st self) as [ft|]; [|done]. cbn in *.
  destruct (FloatingTokenizer.matchers st ft) as [l|]; [|done]. cbn in *.
  destruct (heap st !! l) as [[items| | |]|]; try done.
  injection Hreg as ->. rewrite (try_matchers_skip_declined _ _ _ _ Hpre).
  cbn [FloatingTokenizer.try_matchers]. by rewrite Hc, Hm.
Qed.

(** A match that takes the whole rest of the line ends the loop on that
    line after one token. *)
Lemma while_loop_rest_of_line fuel st self ln line pos out st' u :
  0 <= pos < Str.len line ->
  let column := pos + Str.whitespace_end (Str.slice_from line pos) in
  column <> Str.len line ->
  (ft ← tokenizer st self;
   FloatingTokenizer.match_token st ft (Str.slice_from line column))
  = Some (st', (Some u, Str.len (Str.slice_from line column))) ->
  while_loop (S (S fuel)) st self ln line pos out
  = Return (st', out ++ [mkToken u (mkLineInfo ln column (Some (Str.len line)))]).
Proof.
  intros Hpos column Hne Hd. cbn [while_loop].
  destruct (Z.ltb_spec pos (Str.len line)); [|lia].
  unfold loop_body. cbn zeta. fold column.
  destruct (Z.eqb_spec column (Str.len line)); [done|]. rewrite Hd.
  destruct (stripped_cursor line pos) as [Hb _]; [lia|]. fold column in Hb.
  rewrite len_slice_from by lia.
  replace (column + (Str.len line - column)) with (Str.len line) by lia.
  by rewrite Z.ltb_irrefl.
Qed.

End dispatch_at.

(** X15: outside a comment, when the text at the cursor starts with the
    single-line marker and no matcher registered before the comment matcher
    matches it, the rest of the line becomes one token of the single-line
    kind that ends at the end of the line; the loop on that line is over and
    the store is as it was. *)
Theorem single_line_comment_takes_rest_of_line
    (fuel : nat) (st : store) (self : loc) (ln : Z) (line : string) (pos : Z)
    (out : list Token) (pre post : list loc) (c : loc) (cm : CommentMatcher.t) :
  0 <= pos < Str.len line ->
  let column := pos + Str.whitespace_end (Str.slice_from line pos) in
  column <> Str.len line ->
  Tokenizer.registry st self = Some (pre ++ c :: post) ->
  Forall (declines (heap st) (Str.slice_from line column)) pre ->
  heap st !! c = Some (OMatcher (ACommentMatcher cm)) ->
  CommentMatcher.is_multiline cm = false ->
  is_prefix (Symbol_symbol (CommentMatcher.comment cm)) (Str.slice_from line column) ->
  Tokenizer.while_loop (S (S fuel)) st self ln line pos out
  = Return (st, out ++ [mkToken
                          (mkFloatingToken (Symbol_token (CommentMatcher.comment cm)) None)
                          (mkLineInfo ln column (Some (Str.len line)))]).
Proof.
  intros Hpos column Hne Hreg Hpre Hc Hout Hpfx.
  apply while_loop_rest_of_line; [done..|]. fold column.
  rewrite (dispatch_at st self pre c post _ (ACommentMatcher cm) (ACommentMatcher cm)
             (mkFloatingToken (Symbol_token (CommentMatcher.comment cm)) None)
             (Str.len (Str.slice_from line column)) Hreg Hpre Hc).
  - by rewrite insert_id, set_heap_same.
  - cbn. unfold CommentMatcher.match_token. rewrite Hout.
    apply startswith_spec in Hpfx. by rewrite Hpfx.
Qed.

Lemma single_line_comment_takes_rest_of_line_witness :
  Tokenizer.while_loop 2 demo_store demo_tokenizer 0 ";  // ;;" 1 []
  = Return (demo_store,
            [] ++ [mkToken (mkFloatingToken "SINGLE_COMMENT" None)
                           (mkLineInfo 0 3 (Some 8))]).
Proof.
  apply (single_line_comment_takes_rest_of_line O demo_store demo_tokenizer 0
           ";  // ;;" 1 [] [] [2%nat] 1%nat comm_match).
  - by vm_compute.
  - by vm_compute.
  - by vm_compute.
  - constructor.
  - by vm_compute.
  - reflexivity.
  - by exists " ;;".
Defined.



(** X17: a symbol matcher whose first literal is empty, registered first,
    matches every text with width 0: on a first line that is not blank the
    cursor never moves and the loop does not end, whatever the bound on the
    iterations. *)
Theorem empty_literal_never_ends
    (fuel : nat) (st : store) (self : loc) (stream : string)
    (i : loc) (others : list loc) (sm : SymbolMatcher.t)
    (kind : string) (rest : list Symbol) (line : string) (lines : list string) :
  Tokenizer.registry st self = Some (i :: others) ->
  heap st !! i = Some (OMatcher (ASymbolMatcher sm)) ->
  SymbolMatcher.symbols sm = mkSymbol EmptyString kind :: rest ->
  Str.splitlines stream = line :: lines ->
  Str.all_space line = false ->
  Tokenizer.match_tokens fuel st self stream = OutOfFuel.
Proof.
  intros Hreg Hi Hsm Hlines Hline.
  assert (forall s,
            (ft ← Tokenizer.tokenizer st self; FloatingTokenizer.match_token st ft s)
            = Some (st, (Some (mkFloatingToken kind (Some EmptyString)), 0))) as Hd.
  { intros s.
    rewrite (dispatch_at st self [] i others s (ASymbolMatcher sm) (ASymbolMatcher sm)
               (mkFloatingToken kind (Some EmptyString)) 0 Hreg
               ltac:(constructor) Hi).
    - by rewrite insert_id, set_heap_same.
    - cbn. unfold SymbolMatcher.match_token. rewrite Hsm. cbn.
      by destruct s. }
  assert (forall f pos out,
            0 <= pos < Str.len line ->
            pos + Str.whitespace_end (Str.slice_from line pos) <> Str.len line ->
            Tokenizer.while_loop f st self 0 line pos out = OutOfFuel) as Hloop.
  { induction f as [|f IH]; intros pos out Hpos Hne; [done|].
    cbn [Tokenizer.while_loop].
    destruct (Z.ltb_spec pos (Str.len line)); [|lia].
    unfold Tokenizer.loop_body. cbn zeta.
    destruct (Z.eqb_spec (pos + Str.whitespace_end (Str.slice_from line pos))
                         (Str.len line)); [done|].
    rewrite Hd.
    destruct (stripped_cursor line pos) as [Hb1 Hb2]; [lia|]. cbn zeta in Hb1.
    destruct (Hb2 Hne) as (c & r & Hs & Hc).
    apply IH; [lia|]. rewrite Z.add_0_r, Hs. cbn. rewrite Hc. lia. }
  unfold Tokenizer.match_tokens. rewrite Hlines. cbn [Tokenizer.for_lines].
  rewrite Hloop; [done| |].
  - pose proof (len_nonneg line). destruct line; [done|]. unfold Str.len. cbn. lia.
  - rewrite slice_from_0, Z.add_0_l. by apply whitespace_end_not_all_space.
Qed.

Lemma empty_literal_never_ends_witness :
  match setup [ASymbolMatcher (SymbolMatcher.mk [mkSymbol EmptyString "ANY"])] with
  | Some (st, tk) => Tokenizer.match_tokens 50 st tk " x" = OutOfFuel
  | None => False
  end.
Proof.
  destruct (setup _) as [[st tk]|] eqn:E; [|by vm_compute in E].
  vm_compute in E. injection E as <- <-.
  eapply (empty_literal_never_ends 50 _ _ " x" 1%nat []
            (SymbolMatcher.mk [mkSymbol EmptyString "ANY"]) "ANY" [] " x" []).
  - by vm_compute.
  - by vm_compute.
  - reflexivity.
  - by vm_compute.
  - by vm_compute.
Defined.

(** ** Further properties: a specification in the documented form *)

Section documented_form.

Import SymbolMatcher.
Implicit Types (s t : string) (sym : Symbol) (syms : list Symbol).

Lemma linebreak_is_space c : Str.is_linebreak c = true -> Str.isspace_char c = true.
Proof. by destruct c as [[] [] [] [] [] [] [] []]. Qed.

Lemma no_space_no_linebreak s : no_space s = true -> no_linebreak s = true.
Proof.
  induction s as [|c s IH]; [done|]. cbn.
  intros [Hc Hs]%andb_true_iff. rewrite (IH Hs), andb_true_r.
  destruct (Str.is_linebreak c) eqn:E; [|done].
  by rewrite (linebreak_is_space _ E) in Hc.
Qed.

Lemma no_linebreak_app s t :
  no_linebreak (s +:+ t) = no_linebreak s && no_linebreak t.
Proof.
  induction s as [|c s IH]; [done|]. rewrite app_cons. cbn.
  by rewrite IH, andb_assoc.
Qed.

Lemma segments_no_linebreak s : no_linebreak s = true -> Str.segments s = [s].
Proof.
  induction s as [|c s IH]; [done|]. cbn.
  intros [Hc Hs]%andb_true_iff. rewrite (IH Hs).
  by destruct (Str.is_linebreak c).
Qed.

Lemma segments_line_feed s t :
  no_linebreak s = true -> Str.segments (s +:+ NL +:+ t) = s :: Str.segments t.
Proof.
  induction s as [|c s IH]; [done|]. cbn.
  intros [Hc Hs]%andb_true_iff. rewrite app_cons. cbn. rewrite (IH Hs).
  by destruct (Str.is_linebreak c).
Qed.

Lemma spec_line_no_linebreak sym :
  is_field (Symbol_symbol sym) -> is_field (Symbol_token sym) ->
  no_linebreak (spec_line sym) = true.
Proof.
  intros [_ Ha] [_ Hb]. unfold spec_line.
  rewrite !no_linebreak_app, (no_space_no_linebreak _ Ha),
    (no_space_no_linebreak _ Hb). done.
Qed.

Lemma spec_line_not_empty sym : spec_line sym <> EmptyString.
Proof. unfold spec_line. by destruct (Symbol_symbol sym). Qed.

Lemma segments_spec_text syms :
  Forall (fun sym => is_field (Symbol_symbol sym) /\ is_field (Symbol_token sym)) syms ->
  syms <> [] -> Str.segments (spec_text syms) = spec_line <$> syms.
Proof.
  induction 1 as [|sym syms [Ha Hb] Hall IH]; [done|]. intros _.
  destruct syms as [|sym' syms].
  - cbn. apply segments_no_linebreak. by apply spec_line_no_linebreak.
  - change (spec_text (sym :: sym' :: syms))
      with (spec_line sym +:+ NL +:+ spec_text (sym' :: syms)).
    rewrite segments_line_feed by by apply spec_line_no_linebreak.
    by rewrite IH.
Qed.

Lemma splitlines_spec_text syms :
  Forall (fun sym => is_field (Symbol_symbol sym) /\ is_field (Symbol_token sym)) syms ->
  Str.splitlines (spec_text syms) = spec_line <$> syms.
Proof.
  intros H. destruct syms as [|sym syms]; [done|].
  unfold Str.splitlines. rewrite (segments_spec_text _ H) by done.
  destruct (last (spec_line <$> sym :: syms)) as [x|] eqn:E; [|done].
  apply last_Some_elem_of, list_elem_of_fmap in E as (y & -> & _).
  pose proof (spec_line_not_empty y). by destruct (spec_line y).
Qed.

Lemma spec_line_of_pair sym :
  is_field (Symbol_symbol sym) -> is_field (Symbol_token sym) ->
  line_of_pair sym (spec_line sym).
Proof.
  intros Ha Hb. exists EmptyString, (spec_line sym), EmptyString.
  split; [by rewrite app_empty_l, app_empty_r|]. split; [|done].
  unfold spec_line. apply joined_cons; try done. by apply joined_one.
Qed.

End documented_form.

(** X18: a specification in the form the constructor documents, one line
    per symbol with the literal, a space and the kind, the lines separated by
    line feeds, gives back exactly these symbols in their order, provided no
    literal and no kind is empty or holds whitespace. *)
Theorem documented_form_round_trip (syms : list Symbol) :
  Forall (fun sym => is_field (Symbol_symbol sym) /\ is_field (Symbol_token sym)) syms ->
  SymbolMatcher.init (Some (spec_text syms)) = Return (SymbolMatcher.mk syms).
Proof.
  intros H. rewrite init_unfold, (splitlines_spec_text _ H).
  rewrite (init_lines_pairs syms); [done|].
  clear -H. induction H as [|sym syms [Ha Hb] _ IH]; [constructor|].
  rewrite fmap_cons. constructor; [by apply spec_line_of_pair|done].
Qed.

Lemma documented_form_round_trip_witness :
  SymbolMatcher.init (Some ("!== SYMB_XOR" +:+ NL +:+ "!= SYMB_XOR" +:+ NL +:+ "! SYMB_NOT"))
  = Return (SymbolMatcher.mk [mkSymbol "!==" "SYMB_XOR"; mkSymbol "!=" "SYMB_XOR";
                              mkSymbol "!" "SYMB_NOT"]).
Proof.
  apply (documented_form_round_trip
           [mkSymbol "!==" "SYMB_XOR"; mkSymbol "!=" "SYMB_XOR"; mkSymbol "!" "SYMB_NOT"]).
  repeat constructor; by vm_compute.
Defined.

(** ** Further properties: where a token comes from *)

Section provenance.

Lemma comment_match_kinds cm stream cm' u w :
  CommentMatcher.match_token cm stream = (cm', (Some u, w)) ->
  value u = None /\
  token_id u ∈ [Symbol_token (CommentMatcher.ml_start cm);
                Symbol_token (CommentMatcher.ml_end cm);
                Symbol_token (CommentMatcher.comment cm)].
Proof.
  unfold CommentMatcher.match_token.
  destruct (CommentMatcher.is_multiline cm).
  - destruct (Str.find _ _); intros [= _ <- _]; cbn; (split; [done|]);
      apply elem_of_cons; right; by left.
  - destruct (Str.startswith stream _).
    { intros [= _ <- _]; cbn. split; [done|]. do 2 (apply elem_of_cons; right).
      by left. }
    destruct (Str.startswith stream _); [|done].
    intros [= _ <- _]; cbn. split; [done|]. by left.
Qed.

Lemma same_configuration_matcher st0 st i m :
  same_configuration st0 st -> heap st !! i = Some (OMatcher m) ->
  match m with
  | ASymbolMatcher _ => heap st0 !! i = Some (OMatcher m)
  | ACommentMatcher cm =>
      exists cm0 b, heap st0 !! i = Some (OMatcher (ACommentMatcher cm0)) /\
                    cm = CommentMatcher.set_is_multiline cm0 b
  end.
Proof.
  intros (_ & _ & H) Hi. specialize (H i).
  destruct (heap st0 !! i) as [o|]; [|congruence].
  destruct H as (o' & Hi' & Ho). rewrite Hi in Hi'. injection Hi' as <-.
  destruct o as [|[sm|cm0]| |]; cbn in Ho; try done.
  - by injection Ho as ->.
  - destruct Ho as [b [= ->]]. by exists cm0, b.
Qed.

End provenance.

(** X19: every token of a successful scan comes from a matcher that was
    registered when the scan began.  Either a symbol of a registered symbol
    matcher gives the token its kind and its text, that text stands in the
    line at the token's start, and the token is as long as the text; or the
    token has no text and its kind is one of the three kinds of a registered
    comment matcher. *)
Theorem token_provenance
    (fuel : nat) (st0 : store) (self : loc) (stream : string)
    (st' : store) (output : list Token) :
  Tokenizer.match_tokens fuel st0 self stream = Return (st', output) ->
  forall tok, tok ∈ output ->
    exists items i n line,
      Tokenizer.registry st0 self = Some items /\ i ∈ items /\
      Str.splitlines stream !! n = Some line /\
      line_number (Token_line_info tok) = Z.of_nat n /\
      ((exists sm sym,
          heap st0 !! i = Some (OMatcher (ASymbolMatcher sm)) /\
          sym ∈ SymbolMatcher.symbols sm /\
          Token_token tok = mkFloatingToken (Symbol_token sym) (Some (Symbol_symbol sym)) /\
          is_prefix (Symbol_symbol sym)
                    (Str.slice_from line (line_start (Token_line_info tok))) /\
          line_end (Token_line_info tok)
            = Some (line_start (Token_line_info tok) + Str.len (Symbol_symbol sym))) \/
       (exists cm,
          heap st0 !! i = Some (OMatcher (ACommentMatcher cm)) /\
          value (Token_token tok) = None /\
          token_id (Token_token tok) ∈ [Symbol_token (CommentMatcher.ml_start cm);
                                        Symbol_token (CommentMatcher.ml_end cm);
                                        Symbol_token (CommentMatcher.comment cm)])).
Proof.
  unfold Tokenizer.match_tokens. intros Hscan tok Hin.
  apply (for_lines_positioned st0 self (Str.splitlines stream) fuel _ O) in Hscan;
    [|done|by intros line; apply visits_first|done].
  rewrite Forall_forall in Hscan.
  destruct (Hscan tok Hin) as (n & pos & width & Hm & Hpos).
  destruct Hm as (line & st & pos0 & out & items & i & m & m' & Hv & _ & _
                  & Hreg & Hi & Hobj & Hcall).
  pose proof (visits_same_configuration _ _ _ _ _ _ _ _ Hv) as Hsame.
  destruct (visits_cursor _ _ _ _ _ _ _ _ Hv) as [Hl _].
  exists items, i, n, line.
  rewrite <- (same_configuration_registry _ _ self Hsame).
  split; [done|]. split; [done|]. split; [done|]. rewrite Hpos. split; [done|].
  pose proof (same_configuration_matcher _ _ _ _ Hsame Hobj) as H0.
  destruct m as [sm|cm]; cbn in Hcall.
  - left. injection Hcall as _ Hcall. unfold SymbolMatcher.match_token in Hcall.
    pose proof (match_symbols_first (SymbolMatcher.symbols sm)
                  (Str.slice_from line pos)) as H.
    rewrite Hcall in H. destruct H as (pre & sym & post & Hs & _ & Hp & -> & ->).
    exists sm, sym. split; [done|]. split.
    { rewrite Hs. apply elem_of_app. right. by left. }
    by repeat split.
  - right. destruct H0 as (cm0 & b & H0 & ->). exists cm0. split; [done|].
    destruct (CommentMatcher.match_token _ _) as [cm1 r] eqn:E.
    injection Hcall as _ ->. by apply comment_match_kinds in E.
Qed.

Lemma token_provenance_witness :
  exists st' output,
    Tokenizer.match_tokens 10 demo_store demo_tokenizer "; // x" = Return (st', output) /\
    forall tok, tok ∈ output ->
      exists items i n line,
        Tokenizer.registry demo_store demo_tokenizer = Some items /\ i ∈ items /\
        Str.splitlines "; // x" !! n = Some line /\
        line_number (Token_line_info tok) = Z.of_nat n /\
        ((exists sm sym,
            heap demo_store !! i = Some (OMatcher (ASymbolMatcher sm)) /\
            sym ∈ SymbolMatcher.symbols sm /\
            Token_token tok = mkFloatingToken (Symbol_token sym) (Some (Symbol_symbol sym)) /\
            is_prefix (Symbol_symbol sym)
                      (Str.slice_from line (line_start (Token_line_info tok))) /\
            line_end (Token_line_info tok)
              = Some (line_start (Token_line_info tok) + Str.len (Symbol_symbol sym))) \/
         (exists cm,
            heap demo_store !! i = Some (OMatcher (ACommentMatcher cm)) /\
            value (Token_token tok) = None /\
            token_id (Token_token tok) ∈ [Symbol_token (CommentMatcher.ml_start cm);
                                          Symbol_token (CommentMatcher.ml_end cm);
                                          Symbol_token (CommentMatcher.comment cm)])).
Proof.
  eexists. eexists. split.
  - vm_compute. reflexivity.
  - eapply (token_provenance 10 demo_store demo_tokenizer "; // x").
    vm_compute. reflexivity.
Defined.

(** ** Further properties: what a bulk specification can register *)

Section registered_symbols.

Import SymbolMatcher.
Implicit Types (s x : string).

Lemma lstrip_empty s : Str.lstrip s = EmptyString -> Str.all_space s = true.
Proof.
  induction s as [|c s IH]; [done|]. cbn.
  destruct (Str.isspace_char c); [|done]. exact IH.
Qed.

Lemma rstrip_head c s : Str.isspace_char c = false -> Str.rstrip (String c s) <> EmptyString.
Proof. intros Hc. cbn. destruct (Str.rstrip s); [by rewrite Hc|done]. Qed.

Lemma strip_not_empty x : Str.all_space x = false -> Str.strip x <> EmptyString.
Proof.
  intros Hx. unfold Str.strip.
  destruct (lstrip_head x) as [E|(c & rest & -> & Hc)].
  - apply lstrip_empty in E. congruence.
  - by apply rstrip_head.
Qed.

Lemma has_blank_lstrip s : has_blank s = false -> has_blank (Str.lstrip s) = false.
Proof.
  induction s as [|c s IH]; [done|]. cbn.
  intros [Hc Hs]%orb_false_iff. destruct (Str.isspace_char c); [by apply IH|].
  cbn. by rewrite Hc, Hs.
Qed.

Lemma has_blank_rstrip s : has_blank s = false -> has_blank (Str.rstrip s) = false.
Proof.
  induction s as [|c s IH]; [done|]. cbn.
  intros [Hc Hs]%orb_false_iff. specialize (IH Hs).
  destruct (Str.rstrip s).
  - destruct (Str.isspace_char c); [done|]. cbn. by rewrite Hc.
  - cbn in *. by rewrite Hc, IH.
Qed.

Lemma split_no_blank_pieces s :
  Forall (fun p => has_blank p = false) (Str.split " " s).
Proof.
  induction s as [|c s IH]; cbn; [by repeat constructor|].
  destruct (Ascii.eqb c " ") eqn:E; [by constructor|].
  destruct (Str.split " " s) as [|p ps]; [repeat constructor; cbn; by rewrite E|].
  inversion IH; subst. constructor; [|done]. cbn. by rewrite E.
Qed.

Lemma keeps_not_blank x : keeps x = true -> Str.all_space x = false.
Proof.
  unfold keeps. destruct x as [|c x]; [done|]. cbn.
  by destruct (Str.isspace_char c && Str.all_space x).
Qed.

(** Every field the comprehension yields is a non-empty text without a
    space character. *)
Lemma split_line_fields line :
  Forall (fun x => x <> EmptyString /\ has_blank x = false) (split_line line).
Proof.
  unfold split_line. apply Forall_fmap, Forall_forall. intros x Hx.
  apply list_elem_of_In, filter_In in Hx as [Hx Hk]. cbn. split.
  - by apply strip_not_empty, keeps_not_blank.
  - pose proof (split_no_blank_pieces (Str.strip line)) as H.
    rewrite Forall_forall in H. unfold Str.strip.
    apply has_blank_rstrip, has_blank_lstrip, H. by apply list_elem_of_In.
Qed.

Lemma init_lines_fields lines :
  forall acc l,
    Forall (fun sym => Symbol_symbol sym <> EmptyString /\
                       Symbol_token sym <> EmptyString /\
                       has_blank (Symbol_symbol sym) = false /\
                       has_blank (Symbol_token sym) = false) acc ->
    init_lines lines acc = Return l ->
    Forall (fun sym => Symbol_symbol sym <> EmptyString /\
                       Symbol_token sym <> EmptyString /\
                       has_blank (Symbol_symbol sym) = false /\
                       has_blank (Symbol_token sym) = false) l.
Proof.
  induction lines as [|line lines IH]; intros acc l Hacc; cbn [init_lines].
  - by intros [= <-].
  - pose proof (split_line_fields line) as Hf.
    destruct (split_line line) as [|a [|b [|c r]]]; try done.
    apply IH. apply Forall_app. split; [done|]. apply Forall_singleton.
    inversion Hf as [|? ? [Ha1 Ha2] Hf']; subst.
    inversion Hf' as [|? ? [Hb1 Hb2] _]; subst. by cbn.
Qed.

End registered_symbols.

(** X20: a symbol matcher built from a bulk specification holds no empty
    literal and no empty kind, and none of them holds a space character; so
    its matches always move the cursor ([add_symbol] makes no such check). *)
Theorem bulk_symbols_are_not_empty (spec : option string) (m : SymbolMatcher.t) :
  SymbolMatcher.init spec = Return m ->
  Forall (fun sym => Symbol_symbol sym <> EmptyString /\
                     Symbol_token sym <> EmptyString /\
                     has_blank (Symbol_symbol sym) = false /\
                     has_blank (Symbol_token sym) = false)
         (SymbolMatcher.symbols m) /\
  progressive (ASymbolMatcher m).
Proof.
  intros H.
  assert (Forall (fun sym => Symbol_symbol sym <> EmptyString /\
                     Symbol_token sym <> EmptyString /\
                     has_blank (Symbol_symbol sym) = false /\
                     has_blank (Symbol_token sym) = false)
                 (SymbolMatcher.symbols m)) as Hall.
  { destruct spec as [spec|]; [|injection H as <-; constructor].
    rewrite init_unfold in H.
    destruct (SymbolMatcher.init_lines _ _) as [l| | |] eqn:E; try done.
    injection H as <-. cbn.
    apply (init_lines_fields (Str.splitlines spec) [] l); [constructor|done]. }
  split; [done|].
  cbn. eapply Forall_impl; [exact Hall|]. cbn. by intros sym (H1 & _).
Qed.

Lemma bulk_symbols_are_not_empty_witness :
  progressive (ASymbolMatcher
                 (SymbolMatcher.mk [mkSymbol "?" "Q"; mkSymbol "!==" "X"])).
Proof.
  apply (bulk_symbols_are_not_empty
           (Some ("?  Q" +:+ NL +:+ " !== " +:+ TAB +:+ "X "))).
  by vm_compute.
Defined.
